(** * create_file.py: the file generator and its size report

    A shallow embedding of [src/create_file.py].  The script opens
    [./test.txt] in text-write mode with the UTF-8 codec, writes a fixed
    chunk while [f.tell()] is below [target_size], leaves the [with] block
    (which closes the file) and divides the size reported by the file system
    by [1024 * 1024].

    The embedding has three layers:
    - the text layer of [open(..., "w", encoding="utf-8")]: Python strings as
      sequences of code points, newline translation and UTF-8 encoding;
    - the file system the script talks to, as an explicit [world] threaded
      through an error monad (Python exceptions propagate, nothing catches
      them in the script);
    - the script itself, one definition per statement, with the names of the
      source. *)

From Stdlib Require Import ZArith List Lia Bool.
From Stdlib Require Import Floats.SpecFloat.
From stdpp Require Import base tactics option list strings gmap.

Local Open Scope Z_scope.

(** ** Python strings and the text layer *)

(** A Python [str] is a sequence of Unicode code points. *)
Abbreviation codepoint := Z (only parsing).
Abbreviation str := (list codepoint) (only parsing).

(** Bytes are integers in [0, 256). *)
Abbreviation byte := Z (only parsing).
Abbreviation bytes := (list byte) (only parsing).

(** [len] is Python's [len], an integer. *)
Definition len {A} (l : list A) : Z := Z.of_nat (length l).

Module Text.

(** A string literal of the source, character by character. *)
Definition lit (s : string) : str :=
  map (fun a => Z.of_N (Ascii.N_of_ascii a)) (String.list_ascii_of_string s).

(** The escape [\n]. *)
Definition LF : codepoint := 10.
Definition CR : codepoint := 13.

(** [s * n] on strings: [n] copies of [s], none when [n <= 0]. *)
Definition mul (s : str) (n : Z) : str := mjoin (replicate (Z.to_nat n) s).

(** [os.linesep] of the two platforms CPython runs on. *)
Inductive os_name := posix | nt.

Definition linesep (o : os_name) : str :=
  match o with
  | posix => [LF]
  | nt => [CR; LF]
  end.

(** [TextIOWrapper.write] with the default [newline=None]: every ["\n"] of
    the text is replaced by [os.linesep] before encoding. *)
Definition translate (o : os_name) (s : str) : str :=
  mjoin (map (fun c => if c =? LF then linesep o else [c]) s).

(** The UTF-8 codec on one code point.  Surrogates are refused
    ([UnicodeEncodeError]: surrogates not allowed). *)
Definition utf8_encode_cp (c : codepoint) : option bytes :=
  if c <? 0x80 then Some [c]
  else if c <? 0x800 then
    Some [Z.lor 0xC0 (Z.shiftr c 6); Z.lor 0x80 (Z.land c 0x3F)]
  else if (0xD800 <=? c) && (c <=? 0xDFFF) then None
  else if c <? 0x10000 then
    Some [Z.lor 0xE0 (Z.shiftr c 12);
          Z.lor 0x80 (Z.land (Z.shiftr c 6) 0x3F);
          Z.lor 0x80 (Z.land c 0x3F)]
  else
    Some [Z.lor 0xF0 (Z.shiftr c 18);
          Z.lor 0x80 (Z.land (Z.shiftr c 12) 0x3F);
          Z.lor 0x80 (Z.land (Z.shiftr c 6) 0x3F);
          Z.lor 0x80 (Z.land c 0x3F)].

(** The codec on a whole string: all of it or an error. *)
Fixpoint utf8_encode (s : str) : option bytes :=
  match s with
  | [] => Some []
  | c :: s' =>
      match utf8_encode_cp c, utf8_encode s' with
      | Some b, Some bs => Some (b ++ bs)
      | _, _ => None
      end
  end.

(** What one [f.write(s)] hands to the binary layer. *)
Definition encode (o : os_name) (s : str) : option bytes :=
  utf8_encode (translate o s).

(** A string the [str] type can hold: code points up to U+10FFFF. *)
Definition wf (s : str) : Prop := Forall (fun c => 0 <= c <= 0x10FFFF) s.

End Text.

(** ** The file system and the exceptions of the script

    The script never catches an exception, so every operation either returns
    or raises, and a raise ends the run.  [Diverge] is not a Python outcome:
    it is what the embedding answers when the fuel given to the [while] loop
    runs out before the loop does. *)

Inductive exn :=
  | FileNotFoundError    (* open: a directory of the path is missing; stat: no such file *)
  | PermissionError      (* open: the path may not be written *)
  | NoSpaceError         (* OSError, errno ENOSPC: the device is full *)
  | UnicodeEncodeError   (* write: the text has a lone surrogate *)
  | ZeroDivisionError    (* int / int with a zero divisor *)
  | OverflowError.       (* int / int too large for a float *)

Inductive result (A : Type) :=
  | Ret (a : A)
  | Raise (e : exn)
  | Diverge.
Arguments Ret {A} a.
Arguments Raise {A} e.
Arguments Diverge {A}.

(** The system calls of a run, in order. *)
Inductive event :=
  | EvOpen (p : string)
  | EvWrite (p : string) (pos n : Z)   (* [n] bytes handed over at offset [pos] *)
  | EvClose (p : string)
  | EvStat (p : string).

(** The part of the machine the script can observe: the files by path, the
    bytes the device can still take, which paths [open(_, "w")] refuses and
    with which error, the number of file handles the process holds, and the
    calls made so far. *)
Record world := World {
  files : gmap string bytes;
  free : Z;
  denied : string -> option exn;
  handles : nat;
  log : list event
}.

Definition IO (A : Type) : Type := world -> result A * world.

Definition ret {A} (a : A) : IO A := fun w => (Ret a, w).

Definition bind {A B} (m : IO A) (k : A -> IO B) : IO B := fun w =>
  match m w with
  | (Ret a, w') => k a w'
  | (Raise e, w') => (Raise e, w')
  | (Diverge, w') => (Diverge, w')
  end.

Declare Scope io_scope.
Delimit Scope io_scope with io.
Notation "x <- m ;; k" := (bind m (fun x => k))
  (at level 100, m at next level, right associativity) : io_scope.
Local Open Scope io_scope.

Definition record (ev : event) (w : world) : world :=
  World (files w) (free w) (denied w) (handles w) (log w ++ [ev]).

(** The content of the file at [p], empty when there is none. *)
Definition content (w : world) (p : string) : bytes := default [] (files w !! p).

(** A file object opened for writing: its path and its stream position. *)
Record file_obj := File { f_name : string; f_pos : Z }.

(** [open(path, "w", encoding="utf-8")]: creates the file or truncates it,
    giving back to the device what the old content took; the position of the
    new file object is 0. *)
Definition open (path : string) : IO file_obj := fun w =>
  let w1 := record (EvOpen path) w in
  match denied w path with
  | Some e => (Raise e, w1)
  | None =>
      (Ret (File path 0),
       World (<[path := []]> (files w1)) (free w1 + len (content w1 path))
             (denied w1) (S (handles w1)) (log w1))
  end.

(** [f.tell()]: the stream position, in bytes. *)
Definition tell (f : file_obj) : Z := f_pos f.

(** Bytes [bs] put at offset [pos] of a file holding [c]: a gap before [pos]
    reads as zeros, what lies under [bs] is replaced. *)
Definition pwrite (c : bytes) (pos : Z) (bs : bytes) : bytes :=
  match bs with
  | [] => c
  | _ =>
      take (Z.to_nat pos) (c ++ replicate (Z.to_nat (pos - len c)) 0)
        ++ bs ++ drop (Z.to_nat (pos + len bs)) c
  end.

(** [f.write(s)], followed by the flush that the next [f.tell()] performs:
    the text is translated and encoded as a whole (a text that cannot be
    encoded writes nothing), then the bytes go to the device at the stream
    position.  When the device cannot take them all, the bytes that fit are
    written and the call raises. *)
Definition write (o : Text.os_name) (f : file_obj) (s : str) : IO file_obj := fun w =>
  match Text.encode o s with
  | None => (Raise UnicodeEncodeError, w)
  | Some bs =>
      let w1 := record (EvWrite (f_name f) (f_pos f) (len bs)) w in
      let c := content w1 (f_name f) in
      let room := Z.max 0 (len c + free w1 - f_pos f) in
      let k := Z.min (len bs) room in
      let c' := pwrite c (f_pos f) (take (Z.to_nat k) bs) in
      let w2 := World (<[f_name f := c']> (files w1)) (free w1 - (len c' - len c))
                      (denied w1) (handles w1) (log w1) in
      if k <? len bs then (Raise NoSpaceError, w2)
      else (Ret (File (f_name f) (f_pos f + len bs)), w2)
  end.

(** [f.close()], as [__exit__] calls it. *)
Definition close (f : file_obj) : IO unit := fun w =>
  (Ret tt, World (files w) (free w) (denied w) (Nat.pred (handles w))
                 (log w ++ [EvClose (f_name f)])).

(** [with open(path, "w", encoding="utf-8") as f: body]: when [open] raises,
    nothing was acquired; otherwise the file is closed when the body returns
    and when it raises, and the exception goes on. *)
Definition with_open {A} (path : string) (body : file_obj -> IO A) : IO A := fun w =>
  match open path w with
  | (Ret f, w1) =>
      match body f w1 with
      | (Diverge, w2) => (Diverge, w2)
      | (r, w2) => (r, snd (close f w2))
      end
  | (Raise e, w1) => (Raise e, w1)
  | (Diverge, w1) => (Diverge, w1)
  end.

(** [os.path.getsize(path)]. *)
Definition getsize (path : string) : IO Z := fun w =>
  let w1 := record (EvStat path) w in
  match files w !! path with
  | Some c => (Ret (len c), w1)
  | None => (Raise FileNotFoundError, w1)
  end.

(** ** The script *)

(** [target_size = 1000 * 1024 * 1024] *)
Definition target_size : Z := 1000 * 1024 * 1024.

(** [file_path_1mb = "./test.txt"] *)
Definition file_path_1mb : string := "./test.txt".

(** [chunk = "ABCDEFGHIJKLMNOPQRSTUVWXYZ0123456789\n" * 100] *)
Definition chunk : str :=
  Text.mul (Text.lit "ABCDEFGHIJKLMNOPQRSTUVWXYZ0123456789" ++ [Text.LF]) 100.

(** [while f.tell() < target_size: f.write(chunk)].  The test comes first,
    each round writes the whole chunk once. *)
Fixpoint write_loop (o : Text.os_name) (fuel : nat) (target_size : Z) (chunk : str)
    (f : file_obj) : IO file_obj :=
  match fuel with
  | O => fun w => (Diverge, w)
  | S fuel' =>
      if tell f <? target_size then
        (f' <- write o f chunk ;; write_loop o fuel' target_size chunk f')
      else ret f
  end.

(** The [with] block of the script, over any path, target and chunk: the
    operation the specification calls [generate]. *)
Definition generate (o : Text.os_name) (fuel : nat) (path : string)
    (target_size : Z) (chunk : str) : IO unit :=
  with_open path (fun f => _ <- write_loop o fuel target_size chunk f ;; ret tt).

(** ** Floats and the size report *)

(** A Python [float] is an IEEE 754 binary64 number. *)
Definition float := spec_float.
Definition prec : Z := 53.
Definition emax : Z := 1024.

(** An integer as the operand of a division: mantissa and exponent 0. *)
Definition operand (n : Z) : float :=
  match n with
  | Z0 => S754_zero false
  | Zpos p => S754_finite false p 0
  | Zneg p => S754_finite true p 0
  end.

(** [a / b] on integers: the quotient rounded once, to nearest even. *)
Definition truediv (a b : Z) : IO float := fun w =>
  if b =? 0 then (Raise ZeroDivisionError, w)
  else
    match SFdiv prec emax (operand a) (operand b) with
    | S754_infinity _ => (Raise OverflowError, w)
    | x => (Ret x, w)
    end.

(** The last two statements of the script, over any path: what the
    specification calls [report_size].
    [actual_size = os.path.getsize(path)]
    [actual_size_MB = actual_size / (1024 * 1024)] *)
Definition report_size (path : string) : IO (Z * float) :=
  actual_size <- getsize path ;;
  actual_size_MB <- truediv actual_size (1024 * 1024) ;;
  ret (actual_size, actual_size_MB).

(** The whole script; its value is the last expression, [actual_size_MB]. *)
Definition script (o : Text.os_name) (fuel : nat) : IO float :=
  _ <- generate o fuel file_path_1mb target_size chunk ;;
  r <- report_size file_path_1mb ;;
  ret (snd r).

(** The number a finite float stands for is [m * 2^e]; as a fraction of
    integers it is [float_num / float_den]. *)
Definition float_num (x : float) : Z :=
  match x with
  | S754_finite s m e => (if s then Zneg m else Zpos m) * 2 ^ Z.max 0 e
  | _ => 0
  end.

Definition float_den (x : float) : Z :=
  match x with
  | S754_finite _ _ e => 2 ^ Z.max 0 (- e)
  | _ => 1
  end.

(** [x] is finite and stands for exactly the rational [a / b]. *)
Definition float_is (x : float) (a b : Z) : Prop :=
  match x with
  | S754_zero _ | S754_finite _ _ _ => float_num x * b = a * float_den x
  | _ => False
  end.

(** ** Shorthands of the statements below *)

(** The [n] writes of [L] bytes that start at [pos], as the log shows them. *)
Definition write_events (p : string) (pos L : Z) (n : nat) : list event :=
  map (fun i => EvWrite p (pos + Z.of_nat i * L) L) (seq 0 n).

(** The world right after [open(path, "w")] returned. *)
Definition opened (path : string) (w : world) : world :=
  World (<[path := []]> (files w)) (free w + len (content w path))
        (denied w) (S (handles w)) (log w ++ [EvOpen path]).

(** The number of rounds of the loop from an empty file: the least [n] with
    [T <= n * L], none when [T <= 0]. *)
Definition rounds (T L : Z) : Z := if 0 <? T then (T + L - 1) / L else 0.

(** The content the [with] block leaves when it returns, in closed form. *)
Definition final_content (o : Text.os_name) (T : Z) (s : str) : bytes :=
  match Text.encode o s with
  | Some bs => mjoin (replicate (Z.to_nat (rounds T (len bs))) bs)
  | None => []
  end.

(** Two worlds that differ at most in the log of calls. *)
Definition same_state (w v : world) : Prop :=
  files w = files v /\ free w = free v /\ denied w = denied v /\ handles w = handles v.

(** A logged write to [p] that started below [T]. *)
Definition write_below (p : string) (T : Z) (ev : event) : Prop :=
  exists pos n, ev = EvWrite p pos n /\ pos < T.

(** A call the [with] block makes on [p] with target [T]: the [open], a
    write that started below [T], or the [close]. *)
Definition block_event (p : string) (T : Z) (ev : event) : Prop :=
  ev = EvOpen p \/ write_below p T ev \/ ev = EvClose p.

(** * Properties *)

(** The branch of the first [if] of the goal. *)
Ltac destruct_if :=
  match goal with |- context [if ?b then _ else _] => destruct b end.

(** ** Lists and single operations *)

Lemma len_nonneg {A} (l : list A) : 0 <= len l.
Proof. unfold len. lia. Qed.

Lemma len_app {A} (l k : list A) : len (l ++ k) = len l + len k.
Proof. unfold len. rewrite length_app. lia. Qed.

Lemma len_take {A} (l : list A) (k : Z) : 0 <= k <= len l -> len (take (Z.to_nat k) l) = k.
Proof. unfold len. intros H. rewrite length_take. lia. Qed.

Lemma pwrite_end (c bs : bytes) : pwrite c (len c) bs = c ++ bs.
Proof.
  unfold pwrite. destruct bs as [|b bs]; [by rewrite app_nil_r|].
  rewrite Z.sub_diag. simpl replicate. rewrite app_nil_r.
  rewrite take_ge by (unfold len; lia).
  rewrite drop_ge by (unfold len; lia).
  by rewrite app_nil_r.
Qed.

Lemma content_record ev w p : content (record ev w) p = content w p.
Proof. reflexivity. Qed.

(** A write at the end of the file appends what the device can take. *)
Lemma write_at_end o f s bs w :
  Text.encode o s = Some bs ->
  f_pos f = len (content w (f_name f)) ->
  write o f s w =
    let k := Z.min (len bs) (Z.max 0 (free w)) in
    let w' := World (<[f_name f := content w (f_name f) ++ take (Z.to_nat k) bs]> (files w))
                    (free w - k) (denied w) (handles w)
                    (log w ++ [EvWrite (f_name f) (f_pos f) (len bs)]) in
    if k <? len bs then (Raise NoSpaceError, w')
    else (Ret (File (f_name f) (f_pos f + len bs)), w').
Proof.
  intros Henc Hpos. unfold write. rewrite Henc. cbv zeta.
  rewrite content_record. simpl files. simpl free. simpl denied. simpl handles. simpl log.
  rewrite Hpos.
  replace (len (content w (f_name f)) + free w - len (content w (f_name f))) with (free w) by lia.
  rewrite pwrite_end, len_app.
  pose proof (len_nonneg bs).
  rewrite len_take by lia.
  replace (len (content w (f_name f)) + Z.min (len bs) (Z.max 0 (free w)) - len (content w (f_name f)))
    with (Z.min (len bs) (Z.max 0 (free w))) by lia.
  reflexivity.
Qed.

Lemma write_events_S p pos L n :
  write_events p pos L (S n) = EvWrite p pos L :: write_events p (pos + L) L n.
Proof.
  unfold write_events. simpl. f_equal; [f_equal; lia|].
  rewrite <- seq_shift, map_map. apply map_ext. intros i. f_equal. lia.
Qed.

Section Loop.
Variables (o : Text.os_name) (T : Z) (s : str) (bs : bytes).
Hypothesis Henc : Text.encode o s = Some bs.

(** The runs of the loop that return: [n] whole chunks were appended, the
    position passed the target only with the last of them. *)
Lemma write_loop_ret fuel : forall f w c f' w',
  f_pos f = len c ->
  files w !! f_name f = Some c ->
  write_loop o fuel T s f w = (Ret f', w') ->
  exists n : nat,
    f' = File (f_name f) (f_pos f + Z.of_nat n * len bs) /\
    files w' = <[f_name f := c ++ mjoin (replicate n bs)]> (files w) /\
    T <= tell f' /\
    (forall i : nat, (i < n)%nat -> f_pos f + Z.of_nat i * len bs < T) /\
    Z.of_nat n * len bs <= Z.max 0 (free w) /\
    free w' = free w - Z.of_nat n * len bs /\
    denied w' = denied w /\ handles w' = handles w /\
    log w' = log w ++ write_events (f_name f) (f_pos f) (len bs) n.
Proof.
  induction fuel as [|fuel IH]; intros f w c f' w' Hpos Hc Hrun; [discriminate|].
  simpl in Hrun. destruct (Z.ltb_spec (tell f) T) as [Hlt|Hge].
  - unfold bind in Hrun.
    rewrite (write_at_end o f s bs w Henc) in Hrun
      by (unfold content; rewrite Hc; exact Hpos).
    cbv zeta in Hrun. unfold content in Hrun. rewrite Hc in Hrun. simpl default in Hrun.
    destruct (Z.ltb_spec (Z.min (len bs) (Z.max 0 (free w))) (len bs)) as [Hfull|Hroom];
      [discriminate|].
    replace (Z.min (len bs) (Z.max 0 (free w))) with (len bs) in Hrun by lia.
    rewrite take_ge in Hrun by (unfold len; lia).
    eapply (IH _ _ (c ++ bs)) in Hrun
      as (n & -> & Hfiles & Hge & Hbelow & Hroom' & Hfree & Hden & Hhan & Hlog);
      [| simpl; rewrite len_app; lia | simpl; apply lookup_insert_eq].
    simpl in *. pose proof (len_nonneg bs). exists (S n). repeat split.
    + f_equal. lia.
    + rewrite Hfiles, insert_insert_eq. simpl. by rewrite <- app_assoc.
    + unfold tell in *. simpl in *. lia.
    + intros [|i] Hi; [unfold tell in Hlt; lia|].
      specialize (Hbelow i ltac:(lia)). lia.
    + assert (0 <= Z.of_nat n * len bs) by nia. lia.
    + lia.
    + exact Hden.
    + exact Hhan.
    + rewrite Hlog, write_events_S, <- app_assoc. reflexivity.
  - inversion Hrun; subst f' w'. exists 0%nat. repeat split.
    + destruct f; simpl; f_equal; lia.
    + simpl. rewrite app_nil_r. symmetry. by apply insert_id.
    + exact Hge.
    + intros i Hi; lia.
    + lia.
    + lia.
    + unfold write_events. simpl. by rewrite app_nil_r.
Qed.

(** The runs of the loop that raise: after [k] whole chunks the device
    took [r] more bytes, fewer than a chunk, and the write raised. *)
Lemma write_loop_raise fuel : forall f w c e w',
  f_pos f = len c ->
  files w !! f_name f = Some c ->
  write_loop o fuel T s f w = (Raise e, w') ->
  e = NoSpaceError /\
  exists (k : nat) (r : Z),
    Z.of_nat k * len bs <= Z.max 0 (free w) /\
    r = Z.max 0 (free w - Z.of_nat k * len bs) /\ r < len bs /\
    files w' = <[f_name f := c ++ mjoin (replicate k bs) ++ take (Z.to_nat r) bs]> (files w) /\
    (forall i : nat, (i <= k)%nat -> f_pos f + Z.of_nat i * len bs < T) /\
    free w' = free w - Z.of_nat k * len bs - r /\
    denied w' = denied w /\ handles w' = handles w /\
    log w' = log w ++ write_events (f_name f) (f_pos f) (len bs) (S k).
Proof.
  induction fuel as [|fuel IH]; intros f w c e w' Hpos Hc Hrun; [discriminate|].
  simpl in Hrun. destruct (Z.ltb_spec (tell f) T) as [Hlt|Hge]; [|discriminate].
  unfold bind in Hrun.
  rewrite (write_at_end o f s bs w Henc) in Hrun
    by (unfold content; rewrite Hc; exact Hpos).
  cbv zeta in Hrun. unfold content in Hrun. rewrite Hc in Hrun. simpl default in Hrun.
  destruct (Z.ltb_spec (Z.min (len bs) (Z.max 0 (free w))) (len bs)) as [Hfull|Hroom].
  - inversion Hrun; subst e w'; clear Hrun. split; [reflexivity|].
    exists 0%nat, (Z.max 0 (free w)). simpl.
    replace (Z.min (len bs) (Z.max 0 (free w))) with (Z.max 0 (free w)) by lia.
    split_and!; try reflexivity.
    + lia.
    + lia.
    + lia.
    + intros i Hi. replace i with 0%nat by lia. unfold tell in Hlt. lia.
    + lia.
    + unfold write_events. simpl. do 3 f_equal. lia.
  - replace (Z.min (len bs) (Z.max 0 (free w))) with (len bs) in Hrun by lia.
    rewrite take_ge in Hrun by (unfold len; lia).
    eapply (IH _ _ (c ++ bs)) in Hrun
      as (-> & k & r & Hk & Hr & Hrlt & Hfiles & Hbelow & Hfree & Hden & Hhan & Hlog);
      [| simpl; rewrite len_app; lia | simpl; apply lookup_insert_eq].
    simpl in *. pose proof (len_nonneg bs).
    split; [reflexivity|]. exists (S k), r. repeat split.
    + lia.
    + lia.
    + exact Hrlt.
    + rewrite Hfiles, insert_insert_eq. simpl. by rewrite <- !app_assoc.
    + intros [|i] Hi; [unfold tell in Hlt; lia|].
      specialize (Hbelow i ltac:(lia)). lia.
    + lia.
    + exact Hden.
    + exact Hhan.
    + rewrite Hlog, (write_events_S _ _ _ (S k)), <- app_assoc. reflexivity.
Qed.

(** One write either raises for lack of room or moves the position on by
    the length of the encoded chunk. *)
Lemma write_cases f w :
  (exists w', write o f s w = (Raise NoSpaceError, w')) \/
  (exists w', write o f s w = (Ret (File (f_name f) (f_pos f + len bs)), w')).
Proof.
  unfold write. rewrite Henc. cbv zeta.
  destruct_if; eauto.
Qed.

(** A chunk of at least one byte: the loop ends, within
    [T - f.tell()] rounds and one more test. *)
Lemma write_loop_ends (Hpos : 0 < len bs) (m : nat) : forall f w,
  T - tell f <= Z.of_nat m ->
  fst (write_loop o (S m) T s f w) <> Diverge.
Proof.
  induction m as [|m IH]; intros f w Hm; simpl;
    destruct (Z.ltb_spec (tell f) T) as [Hlt|Hge]; try (simpl; discriminate); try lia.
  unfold bind.
  destruct (write_cases f w) as [[w' ->]|[w' ->]]; [simpl; discriminate|].
  apply IH. unfold tell in *. simpl. lia.
Qed.
End Loop.

(** More fuel does not change a run that ended. *)
Lemma write_loop_fuel o T s fuel : forall fuel' f w,
  (fuel <= fuel')%nat ->
  fst (write_loop o fuel T s f w) <> Diverge ->
  write_loop o fuel' T s f w = write_loop o fuel T s f w.
Proof.
  induction fuel as [|fuel IH]; intros fuel' f w Hle Hend; [by destruct Hend|].
  destruct fuel' as [|fuel']; [lia|]. simpl in *.
  destruct (tell f <? T); [|reflexivity].
  unfold bind in *. destruct (write o f s w) as [[f1| |] w1]; try reflexivity.
  apply IH; [lia|exact Hend].
Qed.

(** *** The text layer never shortens a text *)

Lemma utf8_encode_cp_len c b : Text.utf8_encode_cp c = Some b -> 1 <= len b.
Proof.
  unfold Text.utf8_encode_cp. intros H.
  repeat match type of H with
         | (if ?b then _ else _) = _ => destruct b
         end; inversion H; unfold len; simpl; lia.
Qed.

Lemma utf8_encode_len s : forall bs, Text.utf8_encode s = Some bs -> len s <= len bs.
Proof.
  induction s as [|c s IH]; intros bs H; simpl in H.
  - inversion H. reflexivity.
  - destruct (Text.utf8_encode_cp c) as [b|] eqn:Hc; [|discriminate].
    destruct (Text.utf8_encode s) as [bs'|]; [|discriminate].
    inversion H; subst bs. apply utf8_encode_cp_len in Hc.
    specialize (IH _ eq_refl). rewrite len_app. unfold len in *. simpl length. lia.
Qed.

Lemma translate_len o s : len s <= len (Text.translate o s).
Proof.
  unfold Text.translate. induction s as [|c s IH]; [reflexivity|].
  simpl. rewrite len_app. unfold len in *. simpl length.
  destruct (c =? Text.LF); destruct o; simpl in *; lia.
Qed.

Lemma encode_len o s bs : Text.encode o s = Some bs -> len s <= len bs.
Proof.
  unfold Text.encode. intros H%utf8_encode_len. pose proof (translate_len o s). lia.
Qed.

Lemma encode_nonempty o s bs : s <> [] -> Text.encode o s = Some bs -> 0 < len bs.
Proof.
  intros Hs H%encode_len. destruct s; [done|]. unfold len in *. simpl in *. lia.
Qed.

(** *** The codec puts out bytes *)

Lemma lor_byte a b : 0 <= a < 256 -> 0 <= b < 256 -> 0 <= Z.lor a b < 256.
Proof.
  intros Ha Hb. assert (0 <= Z.lor a b) as Hnn by (apply Z.lor_nonneg; lia).
  split; [exact Hnn|]. destruct (Z.eq_dec (Z.lor a b) 0) as [->|Hne]; [lia|].
  change 256 with (2 ^ 8). apply Z.log2_lt_pow2; [lia|].
  rewrite Z.log2_lor by lia.
  assert (Z.log2 a < 8) by (destruct (Z.eq_dec a 0) as [->|]; [simpl; lia|apply Z.log2_lt_pow2; lia]).
  assert (Z.log2 b < 8) by (destruct (Z.eq_dec b 0) as [->|]; [simpl; lia|apply Z.log2_lt_pow2; lia]).
  lia.
Qed.

Lemma land_3F c : 0 <= Z.land c 0x3F < 64.
Proof. change 0x3F with (Z.ones 6). rewrite Z.land_ones by lia. apply Z.mod_pos_bound. lia. Qed.

Lemma shiftr_bound c n m : 0 <= n -> 0 <= c < 2 ^ (n + m) -> 0 <= m -> 0 <= Z.shiftr c n < 2 ^ m.
Proof.
  intros Hn Hc Hm. rewrite Z.shiftr_div_pow2 by lia. split.
  - apply Z.div_pos; [lia|]. apply Z.pow_pos_nonneg; lia.
  - apply Z.div_lt_upper_bound; [apply Z.pow_pos_nonneg; lia|].
    rewrite <- Z.pow_add_r by lia. lia.
Qed.

(** What the codec puts out are bytes. *)
Lemma utf8_encode_cp_bytes c b :
  0 <= c <= 0x10FFFF -> Text.utf8_encode_cp c = Some b -> Forall (fun x => 0 <= x < 256) b.
Proof.
  intros Hc. unfold Text.utf8_encode_cp.
  destruct (Z.ltb_spec c 0x80); [intros [= <-]; repeat constructor; lia|].
  destruct (Z.ltb_spec c 0x800).
  { intros [= <-]. pose proof (shiftr_bound c 6 5 ltac:(lia) ltac:(simpl; lia) ltac:(lia)).
    pose proof (land_3F c).
    repeat constructor; apply lor_byte; simpl in *; lia. }
  destruct ((0xD800 <=? c) && (c <=? 0xDFFF)); [discriminate|].
  destruct (Z.ltb_spec c 0x10000).
  { intros [= <-]. pose proof (shiftr_bound c 12 4 ltac:(lia) ltac:(simpl; lia) ltac:(lia)).
    pose proof (land_3F c). pose proof (land_3F (Z.shiftr c 6)).
    repeat constructor; apply lor_byte; simpl in *; lia. }
  intros [= <-]. pose proof (shiftr_bound c 18 3 ltac:(lia) ltac:(simpl; lia) ltac:(lia)).
  pose proof (land_3F c). pose proof (land_3F (Z.shiftr c 6)). pose proof (land_3F (Z.shiftr c 12)).
  repeat constructor; apply lor_byte; simpl in *; lia.
Qed.

Lemma utf8_encode_bytes s : forall bs,
  Text.wf s -> Text.utf8_encode s = Some bs -> Forall (fun x => 0 <= x < 256) bs.
Proof.
  induction s as [|c s IH]; intros bs Hwf H; simpl in H.
  - injection H as <-. constructor.
  - destruct (Text.utf8_encode_cp c) as [b|] eqn:Hc; [|discriminate].
    destruct (Text.utf8_encode s) as [bs'|]; [|discriminate].
    injection H as <-. inversion Hwf; subst.
    apply Forall_app. split; [by eapply utf8_encode_cp_bytes|by apply IH].
Qed.

Lemma translate_wf o s : Text.wf s -> Text.wf (Text.translate o s).
Proof.
  unfold Text.wf, Text.translate. induction 1 as [|c s Hc Hs IH]; [constructor|].
  simpl. apply Forall_app. split; [|exact IH].
  destruct (c =? Text.LF); [destruct o; simpl|]; repeat (constructor; [unfold Text.CR, Text.LF; lia|]);
    constructor.
Qed.

Lemma encode_bytes o s bs :
  Text.wf s -> Text.encode o s = Some bs -> Forall (fun x => 0 <= x < 256) bs.
Proof. intros Hwf. unfold Text.encode. apply utf8_encode_bytes. by apply translate_wf. Qed.

(** *** The [with] block *)

Section Generate.
Variables (o : Text.os_name) (path : string) (T : Z) (s : str).

Lemma generate_unfold fuel w :
  generate o fuel path T s w =
    match denied w path with
    | Some e => (Raise e, record (EvOpen path) w)
    | None =>
        match write_loop o fuel T s (File path 0) (opened path w) with
        | (Ret _, w2) => (Ret tt, snd (close (File path 0) w2))
        | (Raise e, w2) => (Raise e, snd (close (File path 0) w2))
        | (Diverge, w2) => (Diverge, w2)
        end
    end.
Proof.
  unfold generate, with_open, open. destruct (denied w path); [reflexivity|].
  unfold bind. fold (opened path w).
  change (World (<[path:=[]]> (files (record (EvOpen path) w)))
            (free (record (EvOpen path) w) + len (content (record (EvOpen path) w) path))
            (denied (record (EvOpen path) w)) (S (handles (record (EvOpen path) w)))
            (log (record (EvOpen path) w))) with (opened path w).
  destruct (write_loop o fuel T s (File path 0) (opened path w)) as [[f'|e|] w2]; reflexivity.
Qed.

Lemma opened_lookup w : files (opened path w) !! path = Some [].
Proof. apply lookup_insert_eq. Qed.

(** More fuel does not change a run of the block that ended. *)
Lemma generate_fuel fuel fuel' w :
  (fuel <= fuel')%nat ->
  fst (generate o fuel path T s w) <> Diverge ->
  generate o fuel' path T s w = generate o fuel path T s w.
Proof.
  intros Hle. rewrite !generate_unfold. destruct (denied w path); [reflexivity|].
  intros Hend. rewrite (write_loop_fuel o T s fuel fuel'); [reflexivity|exact Hle|].
  destruct (write_loop o fuel T s (File path 0) (opened path w)) as [[f'|e|] w2];
    simpl in *; congruence.
Qed.

(** A text that cannot be encoded raises at the first write. *)
Lemma write_loop_unencodable fuel f w :
  Text.encode o s = None -> tell f < T ->
  write_loop o (S fuel) T s f w = (Raise UnicodeEncodeError, w).
Proof.
  intros Henc Hlt. simpl. destruct (Z.ltb_spec (tell f) T); [|lia].
  unfold bind, write. by rewrite Henc.
Qed.

Section Encoded.
Variable bs : bytes.
Hypothesis Henc : Text.encode o s = Some bs.

(** The runs of the block that return. *)
Lemma generate_ret fuel w w' :
  generate o fuel path T s w = (Ret tt, w') ->
  exists n : nat,
    files w' = <[path := mjoin (replicate n bs)]> (files w) /\
    T <= Z.of_nat n * len bs /\
    (forall i : nat, (i < n)%nat -> Z.of_nat i * len bs < T) /\
    Z.of_nat n * len bs <= Z.max 0 (free w + len (content w path)) /\
    free w' = free w + len (content w path) - Z.of_nat n * len bs /\
    denied w' = denied w /\ handles w' = handles w /\
    log w' = log w ++ EvOpen path :: write_events path 0 (len bs) n ++ [EvClose path].
Proof.
  rewrite generate_unfold. destruct (denied w path); [discriminate|].
  destruct (write_loop o fuel T s (File path 0) (opened path w)) as [[f'|e|] w2] eqn:Hloop;
    try discriminate.
  intros [= <-].
  apply (write_loop_ret o T s bs Henc fuel _ _ []) in Hloop
    as (n & -> & Hfiles & Hge & Hbelow & Hroom & Hfree & Hden & Hhan & Hlog);
    [| reflexivity | apply opened_lookup].
  exists n. simpl in *. split_and!.
  - rewrite Hfiles. apply insert_insert_eq.
  - unfold tell in Hge. simpl in Hge. lia.
  - exact Hbelow.
  - exact Hroom.
  - lia.
  - exact Hden.
  - rewrite Hhan. reflexivity.
  - rewrite Hlog, <- !app_assoc. reflexivity.
Qed.

(** The runs of the block that raise after [open] returned. *)
Lemma generate_raise fuel w e w' :
  denied w path = None ->
  generate o fuel path T s w = (Raise e, w') ->
  e = NoSpaceError /\
  exists (k : nat) (r : Z),
    Z.of_nat k * len bs <= Z.max 0 (free w + len (content w path)) /\
    r = Z.max 0 (free w + len (content w path) - Z.of_nat k * len bs) /\
    r < len bs /\
    files w' = <[path := mjoin (replicate k bs) ++ take (Z.to_nat r) bs]> (files w) /\
    (forall i : nat, (i <= k)%nat -> Z.of_nat i * len bs < T) /\
    free w' = free w + len (content w path) - Z.of_nat k * len bs - r /\
    denied w' = denied w /\ handles w' = handles w /\
    log w' = log w ++ EvOpen path :: write_events path 0 (len bs) (S k) ++ [EvClose path].
Proof.
  intros Hopen. rewrite generate_unfold, Hopen.
  destruct (write_loop o fuel T s (File path 0) (opened path w)) as [[f'|e'|] w2] eqn:Hloop;
    try discriminate.
  intros [= <- <-].
  apply (write_loop_raise o T s bs Henc fuel _ _ []) in Hloop
    as (-> & k & r & Hk & Hr & Hrlt & Hfiles & Hbelow & Hfree & Hden & Hhan & Hlog);
    [| reflexivity | apply opened_lookup].
  split; [reflexivity|]. exists k, r. simpl in *. split_and!.
  - exact Hk.
  - exact Hr.
  - exact Hrlt.
  - rewrite Hfiles. apply insert_insert_eq.
  - exact Hbelow.
  - lia.
  - exact Hden.
  - rewrite Hhan. reflexivity.
  - rewrite Hlog, <- !app_assoc. reflexivity.
Qed.

(** With a chunk of at least one byte the block ends. *)
Lemma generate_ends w :
  0 < len bs ->
  fst (generate o (S (Z.to_nat T)) path T s w) <> Diverge.
Proof.
  intros Hpos. rewrite generate_unfold. destruct (denied w path); [simpl; discriminate|].
  pose proof (write_loop_ends o T s bs Henc Hpos (Z.to_nat T) (File path 0) (opened path w)) as H.
  destruct (write_loop o (S (Z.to_nat T)) T s (File path 0) (opened path w)) as [[f'|e|] w2];
    simpl in *; try discriminate.
  intros _. apply H; [unfold tell; simpl; lia|reflexivity].
Qed.

(** Where [open] is allowed and the device has room for the target and
    one chunk more, the block returns. *)
Lemma generate_succeeds w :
  0 < len bs ->
  denied w path = None ->
  T + len bs <= free w + len (content w path) ->
  exists w', generate o (S (Z.to_nat T)) path T s w = (Ret tt, w').
Proof.
  intros Hpos Hopen Hroom. pose proof (generate_ends w Hpos) as Hend.
  destruct (generate o (S (Z.to_nat T)) path T s w) as [[[]|e|] w'] eqn:Hrun.
  - by exists w'.
  - apply generate_raise in Hrun as (_ & k & r & _ & Hr & Hrlt & _ & Hbelow & _); [|exact Hopen].
    specialize (Hbelow k (le_n _)). lia.
  - by destruct Hend.
Qed.
End Encoded.
End Generate.
(** *** Division by [1024 * 1024] is exact below [2^53] *)

Lemma digits2_bounds p :
  2 ^ (Zpos (digits2_pos p) - 1) <= Zpos p < 2 ^ Zpos (digits2_pos p).
Proof.
  induction p as [p IH|p IH|]; simpl digits2_pos; [| |simpl; lia].
  all: rewrite Pos2Z.inj_succ;
    replace (Z.succ (Zpos (digits2_pos p)) - 1) with (Z.succ (Zpos (digits2_pos p) - 1)) by lia;
    rewrite !Z.pow_succ_r by lia; lia.
Qed.

Lemma digits2_unique p n :
  2 ^ (n - 1) <= Zpos p < 2 ^ n -> Zpos (digits2_pos p) = n.
Proof.
  intros [Hlo Hhi]. pose proof (digits2_bounds p) as [Hlo' Hhi'].
  assert (0 < n) as Hn.
  { destruct (Z.ltb_spec 0 n) as [|Hle]; [done|]. exfalso.
    destruct (Z.eq_dec n 0) as [->|]; [simpl in Hhi; lia|].
    rewrite Z.pow_neg_r in Hhi; lia. }
  destruct (Z.lt_trichotomy (Zpos (digits2_pos p)) n) as [Hlt|[Heq|Hgt]]; [|exact Heq|].
  - assert (2 ^ Zpos (digits2_pos p) <= 2 ^ (n - 1)) by (apply Z.pow_le_mono_r; lia). lia.
  - assert (2 ^ n <= 2 ^ (Zpos (digits2_pos p) - 1)) by (apply Z.pow_le_mono_r; lia). lia.
Qed.

Lemma digits2_shift p k :
  0 <= k -> Zdigits2 (Zpos p * 2 ^ k) = Zpos (digits2_pos p) + k.
Proof.
  intros Hk. pose proof (digits2_bounds p) as [Hlo Hhi].
  assert (0 < 2 ^ k) by (apply Z.pow_pos_nonneg; lia).
  destruct (Zpos p * 2 ^ k) as [|q|q] eqn:Hq; try lia.
  simpl. apply digits2_unique. rewrite <- Hq.
  replace (Zpos (digits2_pos p) + k - 1) with (Zpos (digits2_pos p) - 1 + k) by lia.
  rewrite !Z.pow_add_r by lia. nia.
Qed.

Lemma div_eucl_exact q b : 0 < b -> Z.div_eucl (q * b) b = (q, 0).
Proof.
  intros Hb. pose proof (Z.div_mul q b ltac:(lia)) as Hd.
  pose proof (Z.mod_mul q b ltac:(lia)) as Hm.
  unfold Z.div, Z.modulo in *. destruct (Z.div_eucl (q * b) b). simpl in *. congruence.
Qed.

(** Rounding a 54-bit even mantissa: one exact shift. *)
Lemma binary_round_aux_even q e :
  Zpos (digits2_pos q) = prec -> -1075 <= e <= 970 ->
  binary_round_aux prec emax false (Zpos q~0) e loc_Exact = S754_finite false q (e + 1).
Proof.
  unfold prec, emax. intros Hd He.
  unfold binary_round_aux, shr_fexp. simpl Zdigits2. rewrite Pos2Z.inj_succ, Hd.
  unfold fexp, emin.
  replace (Z.max (Z.succ 53 + e - 53) (3 - 1024 - 53) - e) with 1 by lia.
  simpl. unfold Zdigits2. rewrite Hd.
  replace (Z.max (53 + (e + 1) - 53) (3 - 1024 - 53) - (e + 1)) with 0 by lia.
  simpl. destruct (Z.leb_spec (e + 1) (1024 - 53)); [reflexivity|lia].
Qed.

(** The quotient of a positive integer below [2^53] by [2^20] is the
    integer itself with its exponent lowered by 20. *)
Lemma SFdiv_mebi p :
  Zpos p < 2 ^ prec ->
  exists (q : positive) (e : Z),
    SFdiv prec emax (operand (Zpos p)) (operand (1024 * 1024)) = S754_finite false q e /\
    e <= -20 /\ Zpos q = Zpos p * 2 ^ (- e - 20).
Proof.
  unfold prec, emax. intros Hp.
  pose proof (digits2_bounds p) as [Hlo Hhi].
  set (d := Zpos (digits2_pos p)) in *.
  assert (1 <= d <= 53) as Hd.
  { split; [unfold d; lia|]. destruct (Z.leb_spec d 53); [done|].
    assert (2 ^ 53 <= 2 ^ (d - 1)) by (apply Z.pow_le_mono_r; lia). lia. }
  assert (0 < 2 ^ (53 - d)) as Hpow by (apply Z.pow_pos_nonneg; lia).
  destruct (Zpos p * 2 ^ (53 - d)) as [|q|q] eqn:Hq; try lia.
  exists q, (d - 73). split_and!; [|lia|rewrite <- Hq; f_equal; f_equal; lia].
  change (operand (Zpos p)) with (S754_finite false p 0).
  change (operand (1024 * 1024)) with (S754_finite false 1048576 0).
  unfold SFdiv, SFdiv_core_binary. fold d.
  change (Zdigits2 (Zpos p)) with d. change (Zdigits2 1048576) with 21.
  unfold fexp, emin.
  replace (Z.min (Z.max (d + 0 - (21 + 0) - 53) (3 - 1024 - 53)) (0 - 0)) with (d - 74) by lia.
  replace (0 - 0 - (d - 74)) with (74 - d) by lia.
  destruct (74 - d) as [|s|s] eqn:Hs; try lia.
  rewrite Z.shiftl_mul_pow2 by lia. rewrite <- Hs.
  replace (Zpos p * 2 ^ (74 - d)) with (Zpos q~0 * 1048576).
  2:{ rewrite Pos2Z.inj_xO, <- Hq.
      replace (74 - d) with (53 - d + 1 + 20) by lia.
      rewrite !Z.pow_add_r by lia. change (2 ^ 20) with 1048576. change (2 ^ 1) with 2. lia. }
  rewrite div_eucl_exact by lia.
  change (new_location 1048576 0) with loc_Exact.
  rewrite binary_round_aux_even; [f_equal; lia| |lia].
  pose proof (digits2_shift p (53 - d) ltac:(lia)) as Hdig. rewrite Hq in Hdig.
  simpl in Hdig. unfold prec. fold d in Hdig. lia.
Qed.

Lemma truediv_mebi_exact (n : Z) w :
  0 <= n < 2 ^ 53 ->
  exists x, truediv n (1024 * 1024) w = (Ret x, w) /\ float_is x n 1048576.
Proof.
  intros Hn. unfold truediv. change (1024 * 1024 =? 0) with false. cbv iota.
  destruct n as [|p|p]; [| |lia].
  - exists (S754_zero false). split; reflexivity.
  - destruct (SFdiv_mebi p) as (q & e & -> & He & Hq); [unfold prec; lia|].
    exists (S754_finite false q e). split; [reflexivity|].
    unfold float_is, float_num, float_den.
    rewrite Z.max_l by lia. rewrite Z.max_r by lia. rewrite Hq.
    replace (- e) with (- e - 20 + 20) at 2 by lia.
    rewrite Z.pow_add_r by lia. change (2 ^ 20) with 1048576. change (2 ^ 0) with 1. lia.
Qed.

(** *** The closed form of a returning run *)

Lemma len_reps {A} (n : nat) (l : list A) : len (mjoin (replicate n l)) = Z.of_nat n * len l.
Proof.
  induction n as [|n IH]; [reflexivity|].
  simpl replicate. simpl mjoin. rewrite len_app, IH. lia.
Qed.

Lemma rounds_unique (n : nat) T L :
  0 <= L -> T <= Z.of_nat n * L ->
  (forall i : nat, (i < n)%nat -> Z.of_nat i * L < T) ->
  rounds T L = Z.of_nat n.
Proof.
  intros HL Hge Hbelow. unfold rounds. destruct (Z.ltb_spec 0 T) as [HT|HT].
  - destruct n as [|n]; [lia|]. specialize (Hbelow n (le_n _)).
    symmetry. apply Z.div_unique with (r := T + L - 1 - Z.of_nat (S n) * L); nia.
  - destruct n as [|n]; [reflexivity|]. specialize (Hbelow 0%nat ltac:(lia)). lia.
Qed.

(** At or past the target the loop returns at its first test. *)
Lemma write_loop_done o T s fuel f w :
  T <= tell f -> write_loop o (S fuel) T s f w = (Ret f, w).
Proof. intros Hge. simpl. by destruct (Z.ltb_spec (tell f) T); [lia|]. Qed.

Lemma generate_ret_closed o path T s fuel w w' :
  generate o fuel path T s w = (Ret tt, w') ->
  denied w path = None /\
  files w' = <[path := final_content o T s]> (files w) /\
  free w' = free w + len (content w path) - len (final_content o T s) /\
  denied w' = denied w /\ handles w' = handles w.
Proof.
  intros Hrun. assert (denied w path = None) as Hopen.
  { rewrite generate_unfold in Hrun. destruct (denied w path); [discriminate|reflexivity]. }
  split; [exact Hopen|]. unfold final_content.
  destruct (Text.encode o s) as [bs|] eqn:Henc.
  - apply (generate_ret o path T s bs Henc) in Hrun
      as (n & Hfiles & Hge & Hbelow & _ & Hfree & Hden & Hhan & _).
    rewrite (rounds_unique n T (len bs) (len_nonneg bs) Hge Hbelow), Nat2Z.id, len_reps.
    auto.
  - rewrite generate_unfold, Hopen in Hrun.
    destruct fuel as [|fuel]; [discriminate|].
    destruct (Z.ltb_spec (tell (File path 0)) T) as [Hlt|Hge].
    + rewrite write_loop_unencodable in Hrun by assumption. discriminate.
    + rewrite write_loop_done in Hrun by assumption.
      simpl in Hrun. injection Hrun as <-. simpl. split_and!; try reflexivity.
      change (len (@nil Z)) with 0. lia.
Qed.

Lemma getsize_lookup path w c :
  files w !! path = Some c -> getsize path w = (Ret (len c), record (EvStat path) w).
Proof. unfold getsize. by intros ->. Qed.

(** *** The log does not steer the run *)

Lemma same_state_refl w : same_state w w.
Proof. by unfold same_state. Qed.

Lemma write_sim o f s w v r w' :
  same_state w v -> write o f s w = (r, w') ->
  exists v', write o f s v = (r, v') /\ same_state w' v'.
Proof.
  destruct w as [fs fr dn hn lg], v as [fs' fr' dn' hn' lg'].
  intros (Hf & Hr & Hd & Hh); simpl in *; subst fs' fr' dn' hn'.
  unfold write. destruct (Text.encode o s) as [bs|].
  - unfold record, content. simpl.
    destruct_if; intros [= <- <-]; eexists; (split; [reflexivity|by unfold same_state]).
  - intros [= <- <-]. eexists. split; [reflexivity|by unfold same_state].
Qed.

Lemma write_loop_sim o T s fuel : forall f w v r w',
  same_state w v -> write_loop o fuel T s f w = (r, w') ->
  exists v', write_loop o fuel T s f v = (r, v') /\ same_state w' v'.
Proof.
  induction fuel as [|fuel IH]; intros f w v r w' Hsame Hrun; simpl in *.
  - inversion Hrun; subst. eauto.
  - destruct (tell f <? T).
    + unfold bind in *. destruct (write o f s w) as [r1 w1] eqn:Hw.
      destruct (write_sim o f s w v r1 w1 Hsame Hw) as (v1 & -> & Hsame1).
      destruct r1 as [f1|e|].
      * eapply IH; eassumption.
      * inversion Hrun; subst. eauto.
      * inversion Hrun; subst. eauto.
    + inversion Hrun; subst. eauto.
Qed.

(** Running the block again in the world it left leaves that world as it
    is, up to the log. *)
Lemma generate_again o path T s fuel w w1 :
  generate o fuel path T s w = (Ret tt, w1) ->
  exists w2, generate o fuel path T s w1 = (Ret tt, w2) /\ same_state w1 w2.
Proof.
  intros Hrun. pose proof Hrun as (Hopen & Hfiles & Hfree & Hden & Hhan)%generate_ret_closed.
  rewrite generate_unfold, Hopen in Hrun.
  destruct (write_loop o fuel T s (File path 0) (opened path w)) as [[f'|e|] x] eqn:Hloop;
    try discriminate.
  injection Hrun as Hw1.
  assert (same_state (opened path w) (opened path w1)) as Hsame.
  { unfold same_state, opened, content in *. simpl.
    rewrite Hfiles, insert_insert_eq, lookup_insert_eq, Hden, Hhan. simpl.
    split_and!; [done|lia|done|done]. }
  destruct (write_loop_sim o T s fuel _ _ _ _ _ Hsame Hloop) as (x' & Hloop' & (Hf & Hr & Hd & Hh)).
  rewrite generate_unfold, Hden, Hopen, Hloop'.
  eexists. split; [reflexivity|]. subst w1. unfold same_state. simpl.
  rewrite Hf, Hr, Hd, Hh. done.
Qed.

(** *** Every write starts below the target *)

Lemma write_log o f s w r w' :
  write o f s w = (r, w') ->
  log w' = log w \/ exists n, log w' = log w ++ [EvWrite (f_name f) (f_pos f) n].
Proof.
  unfold write. destruct (Text.encode o s) as [bs|]; [|intros [= <- <-]; by left].
  cbv zeta. destruct_if; intros [= <- <-]; right; by eexists.
Qed.

Lemma write_name o f s w f' w' :
  write o f s w = (Ret f', w') -> f_name f' = f_name f /\ f_pos f <= f_pos f'.
Proof.
  unfold write. destruct (Text.encode o s) as [bs|]; [|discriminate].
  cbv zeta. destruct_if; intros [= <- <-]. simpl. pose proof (len_nonneg bs). split; [reflexivity|lia].
Qed.

Lemma write_loop_writes_below o T s fuel : forall f w r w',
  write_loop o fuel T s f w = (r, w') ->
  exists evs, log w' = log w ++ evs /\ Forall (write_below (f_name f) T) evs.
Proof.
  induction fuel as [|fuel IH]; intros f w r w' Hrun; simpl in Hrun.
  - injection Hrun as <- <-. exists []. by rewrite app_nil_r.
  - destruct (Z.ltb_spec (tell f) T) as [Hlt|Hge].
    + unfold bind in Hrun. destruct (write o f s w) as [r1 w1] eqn:Hw.
      assert (exists evs, log w1 = log w ++ evs /\ Forall (write_below (f_name f) T) evs)
        as (evs1 & Hlog1 & Hall1).
      { destruct (write_log _ _ _ _ _ _ Hw) as [->|[n ->]].
        - exists []. by rewrite app_nil_r.
        - eexists. split; [reflexivity|]. constructor; [|constructor].
          exists (f_pos f), n. by split. }
      destruct r1 as [f1|e|].
      * apply write_name in Hw as [Hname _].
        apply IH in Hrun as (evs & Hlog & Hall). rewrite Hname in Hall.
        exists (evs1 ++ evs). rewrite Hlog, Hlog1, app_assoc. split; [done|].
        by apply Forall_app.
      * injection Hrun as <- <-. eauto.
      * injection Hrun as <- <-. eauto.
    + injection Hrun as <- <-. exists []. by rewrite app_nil_r.
Qed.

Lemma write_loop_ret_pos o T s fuel : forall f w f' w',
  write_loop o fuel T s f w = (Ret f', w') -> T <= tell f'.
Proof.
  induction fuel as [|fuel IH]; intros f w f' w' Hrun; simpl in Hrun; [discriminate|].
  destruct (Z.ltb_spec (tell f) T) as [Hlt|Hge].
  - unfold bind in Hrun. destruct (write o f s w) as [[f1|e|] w1]; try discriminate.
    eapply IH, Hrun.
  - by injection Hrun as <- <-.
Qed.

Lemma generate_log o path T s fuel w r w' :
  generate o fuel path T s w = (r, w') ->
  exists evs, log w' = log w ++ evs /\ Forall (block_event path T) evs.
Proof.
  rewrite generate_unfold. destruct (denied w path).
  - intros [= <- <-]. exists [EvOpen path]. split; [reflexivity|].
    constructor; [by left|constructor].
  - destruct (write_loop o fuel T s (File path 0) (opened path w)) as [r1 w1] eqn:Hloop.
    apply write_loop_writes_below in Hloop as (evs & Hlog & Hall). simpl in Hlog, Hall.
    assert (Forall (block_event path T) (EvOpen path :: evs)) as Hall'.
    { constructor; [by left|]. eapply Forall_impl; [exact Hall|]. intros ev Hev. right. by left. }
    destruct r1 as [f1|e|]; intros [= <- <-]; simpl; rewrite Hlog.
    + exists (EvOpen path :: evs ++ [EvClose path]). rewrite <- !app_assoc. split; [done|].
      rewrite app_comm_cons. apply Forall_app. split; [done|].
      constructor; [right; by right|constructor].
    + exists (EvOpen path :: evs ++ [EvClose path]). rewrite <- !app_assoc. split; [done|].
      rewrite app_comm_cons. apply Forall_app. split; [done|].
      constructor; [right; by right|constructor].
    + exists (EvOpen path :: evs). rewrite <- !app_assoc. done.
Qed.

Lemma len_final_content o T s bs :
  Text.encode o s = Some bs ->
  len (final_content o T s) = Z.max 0 (rounds T (len bs)) * len bs.
Proof. intros Henc. unfold final_content. rewrite Henc, len_reps. f_equal. lia. Qed.

(** *** The report reads the size and nothing else *)

Lemma report_size_unfold path w :
  report_size path w =
    match files w !! path with
    | Some c =>
        match truediv (len c) (1024 * 1024) (record (EvStat path) w) with
        | (Ret x, w') => (Ret (len c, x), w')
        | (Raise e, w') => (Raise e, w')
        | (Diverge, w') => (Diverge, w')
        end
    | None => (Raise FileNotFoundError, record (EvStat path) w)
    end.
Proof.
  unfold report_size, bind, getsize. destruct (files w !! path) as [c|]; [|reflexivity].
  destruct (truediv (len c) (1024 * 1024) (record (EvStat path) w)) as [[x|e|] w']; reflexivity.
Qed.

Lemma truediv_world a b w : snd (truediv a b w) = w.
Proof.
  unfold truediv. destruct (b =? 0); [reflexivity|].
  destruct (SFdiv prec emax (operand a) (operand b)); reflexivity.
Qed.

Lemma truediv_fst a b w v : fst (truediv a b w) = fst (truediv a b v).
Proof.
  unfold truediv. destruct (b =? 0); [reflexivity|].
  destruct (SFdiv prec emax (operand a) (operand b)); reflexivity.
Qed.

Lemma report_size_world path w : snd (report_size path w) = record (EvStat path) w.
Proof.
  rewrite report_size_unfold. destruct (files w !! path) as [c|]; [|reflexivity].
  pose proof (truediv_world (len c) (1024 * 1024) (record (EvStat path) w)) as H.
  destruct (truediv (len c) (1024 * 1024) (record (EvStat path) w)) as [[x|e|] w']; exact H.
Qed.

Lemma report_size_fst path w v :
  files w !! path = files v !! path ->
  fst (report_size path w) = fst (report_size path v).
Proof.
  intros H. rewrite !report_size_unfold, H. destruct (files v !! path) as [c|]; [|reflexivity].
  pose proof (truediv_fst (len c) (1024 * 1024) (record (EvStat path) w) (record (EvStat path) v)) as Hf.
  destruct (truediv (len c) (1024 * 1024) (record (EvStat path) w)) as [[x|e|] w'];
    destruct (truediv (len c) (1024 * 1024) (record (EvStat path) v)) as [[x'|e'|] v'];
    simpl in *; congruence.
Qed.

Lemma script_ret o fuel w x w' :
  script o fuel w = (Ret x, w') ->
  exists w1 sz,
    generate o fuel file_path_1mb target_size chunk w = (Ret tt, w1) /\
    report_size file_path_1mb w1 = (Ret (sz, x), w').
Proof.
  unfold script, bind.
  destruct (generate o fuel file_path_1mb target_size chunk w) as [[[]|e|] w1]; try discriminate.
  destruct (report_size file_path_1mb w1) as [[[sz y]|e|] w2] eqn:Hrep; try discriminate.
  intros [= <- <-]. by exists w1, sz.
Qed.

(** Size of the file a returning run leaves, for a target above 0. *)
Lemma generate_ret_size o path T s bs fuel w w' :
  0 < T -> Text.encode o s = Some bs ->
  generate o fuel path T s w = (Ret tt, w') ->
  exists n : nat,
    files w' !! path = Some (mjoin (replicate n bs)) /\
    0 < len bs /\ 0 < Z.of_nat n /\
    T <= Z.of_nat n * len bs < T + len bs.
Proof.
  intros HT Henc Hrun.
  apply (generate_ret o path T s bs Henc) in Hrun as (n & Hfiles & Hge & Hbelow & _).
  exists n. rewrite Hfiles, lookup_insert_eq. pose proof (len_nonneg bs).
  destruct n as [|n]; [lia|]. specialize (Hbelow n (le_n _)).
  split_and!; [done|nia|lia|lia|lia].
Qed.

(** *** The script's own chunk and target *)

Lemma chunk_len : len chunk = 3700.
Proof. reflexivity. Qed.

Lemma chunk_encoded o :
  exists bs, Text.encode o chunk = Some bs /\
             len bs = match o with Text.posix => 3700 | Text.nt => 3800 end.
Proof. destruct o; eexists; (split; [vm_compute; reflexivity|vm_compute; reflexivity]). Qed.

(** The size of the file the script's block leaves. *)
Lemma script_generate_size o fuel w w' :
  generate o fuel file_path_1mb target_size chunk w = (Ret tt, w') ->
  fst (getsize file_path_1mb w') =
    Ret (match o with Text.posix => 1048576300 | Text.nt => 1048579600 end).
Proof.
  intros (_ & Hfiles & _)%generate_ret_closed.
  rewrite (getsize_lookup _ _ (final_content o target_size chunk))
    by (rewrite Hfiles; apply lookup_insert_eq).
  destruct (chunk_encoded o) as (bs & Henc & Hlen).
  rewrite (len_final_content _ _ _ _ Henc), Hlen. by destruct o.
Qed.

Lemma script_generate_succeeds o w :
  denied w file_path_1mb = None ->
  target_size + 3800 <= free w + len (content w file_path_1mb) ->
  exists w', generate o (S (Z.to_nat target_size)) file_path_1mb target_size chunk w = (Ret tt, w').
Proof.
  intros Hopen Hroom. destruct (chunk_encoded o) as (bs & Henc & Hlen).
  apply (generate_succeeds o file_path_1mb target_size chunk bs Henc); [|done|];
    destruct o; lia.
Qed.

(** *** The model on small inputs *)

(** U+20AC, U+00E9 and U+1F600 in UTF-8. *)
Example utf8_encode_samples :
  Text.utf8_encode [0x20AC; 0xE9; 0x1F600; 65]
  = Some [0xE2; 0x82; 0xAC; 0xC3; 0xA9; 0xF0; 0x9F; 0x98; 0x80; 65].
Proof. reflexivity. Qed.

Example utf8_encode_surrogate : Text.utf8_encode [65; 0xD800] = None.
Proof. reflexivity. Qed.

Example translate_samples :
  Text.translate Text.posix [65; 10; 66] = [65; 10; 66] /\
  Text.translate Text.nt [65; 10; 66] = [65; 13; 10; 66].
Proof. split; reflexivity. Qed.

(** [1 / 3] is [0x1.5555555555555p-2]. *)
Example truediv_third w :
  fst (truediv 1 3 w) = Ret (S754_finite false 0x15555555555555 (-54)).
Proof. reflexivity. Qed.

Example truediv_zero w : fst (truediv 1 0 w) = Raise ZeroDivisionError.
Proof. reflexivity. Qed.

(** [1048576300 / (1024 * 1024)] is [1000.000286102295], exactly
    [1048576300 / 2^20]. *)
Example truediv_script w :
  fst (truediv 1048576300 (1024 * 1024) w) = Ret (S754_finite false 8796095538790400 (-43)) /\
  8796095538790400 * 2 ^ 20 = 1048576300 * 2 ^ 43.
Proof. split; reflexivity. Qed.

(** * The claims *)

(** C1. For every target size [T > 0] and every non-empty chunk whose
    encoding has [L] bytes, the file that the write loop leaves has a byte
    size [S] with [T <= S < T + L]: never below the target, above it by less
    than one chunk.  Such files are produced: where [open] is allowed and
    the device has room for [T + L] bytes, the block returns. *)
Theorem generate_size_bound o path T s bs :
  0 < T -> s <> [] -> Text.encode o s = Some bs ->
  (forall fuel w w',
     generate o fuel path T s w = (Ret tt, w') ->
     exists S, fst (getsize path w') = Ret S /\ T <= S < T + len bs) /\
  (forall w,
     denied w path = None -> T + len bs <= free w + len (content w path) ->
     exists fuel w', generate o fuel path T s w = (Ret tt, w')).
Proof.
  intros HT Hs Henc. split.
  - intros fuel w w' Hrun.
    destruct (generate_ret_size o path T s bs fuel w w' HT Henc Hrun) as (n & Hc & _ & _ & Hb).
    exists (Z.of_nat n * len bs). rewrite (getsize_lookup _ _ _ Hc), len_reps. by split.
  - intros w Hopen Hroom. exists (S (Z.to_nat T)).
    apply (generate_succeeds o path T s bs Henc); [by eapply encode_nonempty|done|done].
Qed.

(** The bound at target 10 with the chunk ["abc"], three bytes a write. *)
Lemma generate_size_bound_witness :
  0 < 10 /\ Text.lit "abc" <> [] /\
  Text.encode Text.posix (Text.lit "abc") = Some [97; 98; 99] /\
  ((forall fuel w w',
      generate Text.posix fuel "f" 10 (Text.lit "abc") w = (Ret tt, w') ->
      exists S, fst (getsize "f" w') = Ret S /\ 10 <= S < 10 + len [97; 98; 99]) /\
   (forall w,
      denied w "f" = None -> 10 + len [97; 98; 99] <= free w + len (content w "f") ->
      exists fuel w', generate Text.posix fuel "f" 10 (Text.lit "abc") w = (Ret tt, w'))).
Proof.
  split; [lia|]. split; [discriminate|]. split; [reflexivity|].
  apply (generate_size_bound Text.posix "f" 10 (Text.lit "abc") [97; 98; 99]);
    [lia|discriminate|reflexivity].
Defined.

(** C2, as the specification has it, fails where the line separator is
    ["\n"]: the chunk has 3700 characters, not 3800, each write adds 3700
    bytes, and the script leaves 1,048,576,300 bytes, which 3800 does not
    divide. *)
Lemma script_size_not_multiple_of_3800 :
  exists w fuel w',
    generate Text.posix fuel file_path_1mb target_size chunk w = (Ret tt, w') /\
    fst (getsize file_path_1mb w') = Ret 1048576300 /\
    ~ Z.divide 3800 1048576300 /\
    len chunk <> 3800.
Proof.
  destruct (script_generate_succeeds Text.posix (World ∅ 2000000000 (fun _ => None) 0 []))
    as [w' Hrun]; [reflexivity|vm_compute; discriminate|].
  eexists _, _, w'. split; [exact Hrun|]. split; [exact (script_generate_size _ _ _ _ Hrun)|].
  split; [intros [k Hk]; lia|by rewrite chunk_len].
Qed.

(** C2, amended.  The chunk has 3700 characters.  With the target of
    1,048,576,000 the script leaves a file whose size [S] satisfies
    [1,048,576,000 <= S < 1,048,579,800] and is a multiple of the encoded
    length of the chunk: 3700 bytes and [S = 1,048,576,300] where the line
    separator is ["\n"], 3800 bytes and [S = 1,048,579,600] where text mode
    writes ["\r\n"] for ["\n"]. *)
Theorem script_file_size o :
  let L := match o with Text.posix => 3700 | Text.nt => 3800 end in
  let S := match o with Text.posix => 1048576300 | Text.nt => 1048579600 end in
  len chunk = 3700 /\
  (exists bs, Text.encode o chunk = Some bs /\ len bs = L) /\
  (forall fuel w w',
     generate o fuel file_path_1mb target_size chunk w = (Ret tt, w') ->
     fst (getsize file_path_1mb w') = Ret S) /\
  (forall w,
     denied w file_path_1mb = None ->
     target_size + 3800 <= free w + len (content w file_path_1mb) ->
     exists fuel w', generate o fuel file_path_1mb target_size chunk w = (Ret tt, w')) /\
  target_size = 1048576000 /\
  1048576000 <= S < 1048579800 /\ S < 1048576000 + L /\ Z.divide L S.
Proof.
  cbv zeta. split_and!.
  - exact chunk_len.
  - exact (chunk_encoded o).
  - intros fuel w w'. apply script_generate_size.
  - intros w Hopen Hroom. eexists. by apply script_generate_succeeds.
  - reflexivity.
  - destruct o; lia.
  - destruct o; lia.
  - destruct o; lia.
  - destruct o; [exists 283399|exists 275942]; reflexivity.
Qed.

(** C3. For every target size [T > 0] and every non-empty chunk whose
    encoding has [L] bytes, the content of the file that the write loop
    leaves is the encoded chunk repeated [S / L] times, [S] being the final
    size: only whole chunks are written. *)
Theorem generate_content o path T s bs :
  0 < T -> s <> [] -> Text.encode o s = Some bs ->
  (forall fuel w w',
     generate o fuel path T s w = (Ret tt, w') ->
     exists S,
       fst (getsize path w') = Ret S /\
       files w' !! path = Some (mjoin (replicate (Z.to_nat (S / len bs)) bs)) /\
       S mod len bs = 0) /\
  (forall w,
     denied w path = None -> T + len bs <= free w + len (content w path) ->
     exists fuel w', generate o fuel path T s w = (Ret tt, w')).
Proof.
  intros HT Hs Henc. split.
  - intros fuel w w' Hrun.
    destruct (generate_ret_size o path T s bs fuel w w' HT Henc Hrun) as (n & Hc & HL & _ & _).
    exists (Z.of_nat n * len bs). rewrite (getsize_lookup _ _ _ Hc), len_reps.
    rewrite Z.div_mul, Nat2Z.id, Z.mod_mul by lia. done.
  - intros w Hopen Hroom. exists (S (Z.to_nat T)).
    apply (generate_succeeds o path T s bs Henc); [by eapply encode_nonempty|done|done].
Qed.

(** The content at target 10 with the chunk ["abc"]. *)
Lemma generate_content_witness :
  0 < 10 /\ Text.lit "abc" <> [] /\
  Text.encode Text.posix (Text.lit "abc") = Some [97; 98; 99] /\
  ((forall fuel w w',
      generate Text.posix fuel "f" 10 (Text.lit "abc") w = (Ret tt, w') ->
      exists S,
        fst (getsize "f" w') = Ret S /\
        files w' !! "f" = Some (mjoin (replicate (Z.to_nat (S / len [97; 98; 99])) [97; 98; 99])) /\
        S mod len [97; 98; 99] = 0) /\
   (forall w,
      denied w "f" = None -> 10 + len [97; 98; 99] <= free w + len (content w "f") ->
      exists fuel w', generate Text.posix fuel "f" 10 (Text.lit "abc") w = (Ret tt, w'))).
Proof.
  split; [lia|]. split; [discriminate|]. split; [reflexivity|].
  apply (generate_content Text.posix "f" 10 (Text.lit "abc") [97; 98; 99]);
    [lia|discriminate|reflexivity].
Defined.

(** C4. With a non-empty chunk the write loop ends, whatever the target,
    the file object and the world; more fuel does not change the run.  It
    ends as soon as the position is at or past the target: at such a
    position the loop returns at once and leaves the world alone, every
    write of a run started below the target, and a returning run stands at
    or past it. *)
Theorem write_loop_terminates o T s :
  s <> [] ->
  forall f w,
    (exists fuel,
       fst (write_loop o fuel T s f w) <> Diverge /\
       forall fuel', (fuel <= fuel')%nat ->
         write_loop o fuel' T s f w = write_loop o fuel T s f w) /\
    (T <= tell f -> forall fuel, write_loop o (S fuel) T s f w = (Ret f, w)) /\
    (forall fuel r w',
       write_loop o fuel T s f w = (r, w') ->
       (exists evs, log w' = log w ++ evs /\ Forall (write_below (f_name f) T) evs) /\
       (forall f', r = Ret f' -> T <= tell f')).
Proof.
  intros Hs f w. split_and!.
  - assert (exists fuel, fst (write_loop o fuel T s f w) <> Diverge) as [fuel Hend].
    { destruct (Text.encode o s) as [bs|] eqn:Henc.
      - exists (S (Z.to_nat (T - tell f))).
        apply (write_loop_ends o T s bs Henc); [by eapply encode_nonempty|lia].
      - exists 1%nat. destruct (Z.ltb_spec (tell f) T).
        + by rewrite write_loop_unencodable.
        + by rewrite write_loop_done. }
    exists fuel. split; [exact Hend|]. intros fuel' Hle. by apply write_loop_fuel.
  - intros Hge fuel. by apply write_loop_done.
  - intros fuel r w' Hrun. split.
    + by eapply write_loop_writes_below.
    + intros f' ->. by eapply write_loop_ret_pos.
Qed.

(** The loop on the chunk ["abc"] with target 10 ends. *)
Lemma write_loop_terminates_witness :
  Text.lit "abc" <> [] /\
  exists fuel,
    fst (write_loop Text.posix fuel 10 (Text.lit "abc") (File "f" 0)
           (World ∅ 100 (fun _ => None) 1 [])) <> Diverge.
Proof.
  split; [discriminate|].
  destruct (proj1 (write_loop_terminates Text.posix 10 (Text.lit "abc") ltac:(discriminate)
                     (File "f" 0) (World ∅ 100 (fun _ => None) 1 [])))
    as [fuel [Hend _]].
  exists fuel. exact Hend.
Defined.

(** C5. The target size is [1000 * 1024 * 1024 = 1,048,576,000] bytes, that
    is 1000 MiB and not the 1 MB of the comment above it, and it is the same
    from the first loop test to the last: every write of the script's block
    started below 1,048,576,000, whatever the outcome of the run. *)
Theorem target_size_value :
  target_size = 1048576000 /\
  target_size = 1000 * 2 ^ 20 /\
  target_size <> 2 ^ 20 /\ target_size <> 10 ^ 6 /\
  (forall o fuel w r w',
     generate o fuel file_path_1mb target_size chunk w = (r, w') ->
     exists evs,
       log w' = log w ++ evs /\ Forall (block_event file_path_1mb 1048576000) evs).
Proof.
  split_and!; try reflexivity; try discriminate.
  intros o fuel w r w'. apply generate_log.
Qed.

(** C6. [report_size] on a file of [S] bytes returns [S] and the float
    that the division [S / (1024 * 1024)] gives, as it is: nothing is
    applied to the quotient.  Below [2^53] bytes the float is exactly the
    rational [S / 1,048,576], so not even the division rounds.  The report
    changes no file, no free space and no handle; on a missing file it
    raises. *)
Theorem report_size_mebibytes path w :
  same_state (snd (report_size path w)) w /\
  (forall c,
     files w !! path = Some c ->
     fst (report_size path w) =
       match fst (truediv (len c) 1048576 w) with
       | Ret x => Ret (len c, x)
       | Raise e => Raise e
       | Diverge => Diverge
       end) /\
  (forall c,
     files w !! path = Some c -> len c < 2 ^ 53 ->
     exists x,
       fst (report_size path w) = Ret (len c, x) /\ float_is x (len c) 1048576) /\
  (files w !! path = None -> fst (report_size path w) = Raise FileNotFoundError).
Proof.
  split_and!.
  - rewrite report_size_world. by unfold same_state.
  - intros c Hc. rewrite report_size_unfold, Hc.
    rewrite (truediv_fst (len c) 1048576 w (record (EvStat path) w)).
    change (1024 * 1024) with 1048576.
    by destruct (truediv (len c) 1048576 (record (EvStat path) w)) as [[x|e|] w'].
  - intros c Hc Hlt. rewrite report_size_unfold, Hc.
    destruct (truediv_mebi_exact (len c) (record (EvStat path) w)) as (x & -> & Hx);
      [pose proof (len_nonneg c); lia|].
    by exists x.
  - intros Hc. by rewrite report_size_unfold, Hc.
Qed.

(** C7. [open] in write mode truncates: what the file held before does not
    reach the result.  A returning run leaves at the path the closed-form
    content, which depends on the platform, the target and the chunk only;
    run again with the same target and chunk in the world the first run
    left, the block returns again and leaves the files, the free space and
    the handles as they were, so the same size bound holds.  Such runs are
    there: with a non-empty chunk, where [open] is allowed and the device
    has room once the old content is given back, the block returns over
    whatever the file held, and returns again when it is run again. *)
Theorem generate_overwrites o path T s :
  (forall w,
     denied w path = None ->
     exists w1, open path w = (Ret (File path 0), w1) /\ files w1 !! path = Some []) /\
  (forall fuel w w1,
     generate o fuel path T s w = (Ret tt, w1) ->
     files w1 !! path = Some (final_content o T s) /\
     exists w2,
       generate o fuel path T s w1 = (Ret tt, w2) /\
       same_state w1 w2 /\
       forall bs,
         0 < T -> Text.encode o s = Some bs ->
         exists S, fst (getsize path w2) = Ret S /\ T <= S < T + len bs) /\
  (forall w bs,
     s <> [] -> Text.encode o s = Some bs ->
     denied w path = None ->
     T + len bs <= free w + len (content w path) ->
     exists fuel w1 w2,
       generate o fuel path T s w = (Ret tt, w1) /\
       generate o fuel path T s w1 = (Ret tt, w2) /\
       files w1 !! path = Some (final_content o T s) /\
       files w2 = files w1).
Proof.
  assert (forall fuel w w1,
            generate o fuel path T s w = (Ret tt, w1) ->
            files w1 !! path = Some (final_content o T s)) as Hcontent.
  { intros fuel w w1 (_ & Hfiles & _)%generate_ret_closed.
    rewrite Hfiles. apply lookup_insert_eq. }
  split_and!.
  - intros w Hopen. unfold open. rewrite Hopen. eexists. split; [reflexivity|].
    apply lookup_insert_eq.
  - intros fuel w w1 Hrun. split; [by eapply Hcontent|].
    destruct (generate_again o path T s fuel w w1 Hrun) as (w2 & Hrun2 & Hsame).
    exists w2. split_and!; [done|done|].
    intros bs HT Henc.
    destruct (generate_ret_size o path T s bs fuel w1 w2 HT Henc Hrun2) as (n & Hc & _ & _ & Hb).
    exists (Z.of_nat n * len bs). rewrite (getsize_lookup _ _ _ Hc), len_reps. by split.
  - intros w bs Hs Henc Hopen Hroom.
    destruct (generate_succeeds o path T s bs Henc w) as [w1 Hrun];
      [by eapply encode_nonempty|done|done|].
    destruct (generate_again o path T s _ w w1 Hrun) as (w2 & Hrun2 & Hsame).
    exists (S (Z.to_nat T)), w1, w2. split_and!; [done|done|by eapply Hcontent|].
    symmetry. apply Hsame.
Qed.

(** Target 10 and the chunk ["abc"] over a file that holds three other
    bytes: both runs return, and the twelve bytes of four chunks replace
    what was there. *)
Lemma generate_overwrites_witness :
  files (World (<["f" := [1; 2; 3]]> ∅) 100 (fun _ => None) 0 []) !! "f" = Some [1; 2; 3] /\
  final_content Text.posix 10 (Text.lit "abc")
  = [97; 98; 99; 97; 98; 99; 97; 98; 99; 97; 98; 99] /\
  exists fuel w1 w2,
    generate Text.posix fuel "f" 10 (Text.lit "abc")
      (World (<["f" := [1; 2; 3]]> ∅) 100 (fun _ => None) 0 []) = (Ret tt, w1) /\
    generate Text.posix fuel "f" 10 (Text.lit "abc") w1 = (Ret tt, w2) /\
    files w1 !! "f" = Some (final_content Text.posix 10 (Text.lit "abc")) /\
    files w2 = files w1.
Proof.
  split; [exact (lookup_insert_eq _ _ _)|]. split; [reflexivity|].
  assert (10 + len [97; 98; 99]
          <= free (World (<["f" := [1; 2; 3]]> ∅) 100 (fun _ => None) 0 [])
             + len (content (World (<["f" := [1; 2; 3]]> ∅) 100 (fun _ => None) 0 []) "f"))
    as Hroom.
  { pose proof (len_nonneg (content (World (<["f" := [1; 2; 3]]> ∅) 100 (fun _ => None) 0 []) "f")).
    change (len [97; 98; 99]) with 3. simpl free. lia. }
  exact (proj2 (proj2 (generate_overwrites Text.posix "f" 10 (Text.lit "abc")))
           (World (<["f" := [1; 2; 3]]> ∅) 100 (fun _ => None) 0 [])
           [97; 98; 99] ltac:(discriminate) eq_refl eq_refl Hroom).
Defined.

(** C8. An I/O error ends the block at once and goes on to the caller.
    When [open] refuses the path, with whatever error, nothing else is
    called and no handle is held.  When a write raises, it is the last write
    of the run ([k] whole chunks went through before it, the log shows
    [k + 1] writes and then the [close]), the bytes that fit stay in the
    file, and the handle is released; a returning run releases it too.  A
    device with less room than the target makes the block raise and leaves
    on it a file of all the bytes that fitted. *)
Theorem generate_io_errors o path T s :
  (forall fuel w e,
     denied w path = Some e ->
     generate o fuel path T s w = (Raise e, record (EvOpen path) w)) /\
  (forall fuel w e w',
     denied w path = None ->
     generate o fuel path T s w = (Raise e, w') ->
     handles w' = handles w /\
     ((e = UnicodeEncodeError /\ Text.encode o s = None /\
       files w' = <[path := []]> (files w) /\
       log w' = log w ++ [EvOpen path; EvClose path]) \/
      (e = NoSpaceError /\
       exists bs (k : nat) (r : Z),
         Text.encode o s = Some bs /\ 0 <= r < len bs /\
         files w' = <[path := mjoin (replicate k bs) ++ take (Z.to_nat r) bs]> (files w) /\
         log w' = log w ++ EvOpen path :: write_events path 0 (len bs) (S k) ++ [EvClose path]))) /\
  (forall fuel w w',
     generate o fuel path T s w = (Ret tt, w') -> handles w' = handles w) /\
  (forall w bs,
     Text.encode o s = Some bs -> 0 < len bs ->
     denied w path = None ->
     0 <= free w + len (content w path) < T ->
     exists fuel w' c,
       generate o fuel path T s w = (Raise NoSpaceError, w') /\
       files w' !! path = Some c /\
       len c = free w + len (content w path)).
Proof.
  split_and!.
  - intros fuel w e Hden. by rewrite generate_unfold, Hden.
  - intros fuel w e w' Hopen Hrun. destruct (Text.encode o s) as [bs|] eqn:Henc.
    + destruct (generate_raise o path T s bs Henc _ _ _ _ Hopen Hrun)
        as (He & k & r & _ & Hr & Hrlt & Hfiles & _ & _ & _ & Hhan & Hlog).
      split; [exact Hhan|]. right. split; [exact He|].
      exists bs, k, r. split_and!; [reflexivity|lia|lia|exact Hfiles|exact Hlog].
    + rewrite generate_unfold, Hopen in Hrun.
      destruct fuel as [|fuel]; [discriminate|].
      destruct (Z.ltb_spec (tell (File path 0)) T) as [Hlt|Hge].
      * rewrite write_loop_unencodable in Hrun by assumption.
        simpl in Hrun. injection Hrun as <- <-. simpl. split; [reflexivity|]. left.
        split_and!; try reflexivity. by rewrite <- app_assoc.
      * rewrite write_loop_done in Hrun by assumption. discriminate.
  - by intros fuel w w' (_ & _ & _ & _ & Hhan)%generate_ret_closed.
  - intros w bs Henc HL Hopen Hroom. exists (S (Z.to_nat T)).
    pose proof (generate_ends o path T s bs Henc w HL) as Hend.
    destruct (generate o (S (Z.to_nat T)) path T s w) as [[[]|e|] w'] eqn:Hrun.
    + destruct (generate_ret o path T s bs Henc _ _ _ Hrun) as (n & _ & Hge & _ & Hfit & _). lia.
    + destruct (generate_raise o path T s bs Henc _ _ _ _ Hopen Hrun)
        as (He & k & r & Hfit & Hr & Hrlt & Hfiles & _). subst e.
      eexists w', _. split_and!; [reflexivity|rewrite Hfiles; apply lookup_insert_eq|].
      rewrite len_app, len_reps, len_take by lia. lia.
    + by destruct Hend.
Qed.

(** C9. With a target of zero or below the loop test fails before any
    write: where [open] is allowed the block returns, whatever the chunk,
    having made two calls only, [open] and [close], and the file is left
    with zero bytes. *)
Theorem generate_nonpositive_target o path T s fuel w :
  T <= 0 -> denied w path = None ->
  exists w',
    generate o (S fuel) path T s w = (Ret tt, w') /\
    files w' = <[path := []]> (files w) /\
    log w' = log w ++ [EvOpen path; EvClose path] /\
    fst (getsize path w') = Ret 0.
Proof.
  intros HT Hopen. rewrite generate_unfold, Hopen, write_loop_done by (unfold tell; simpl; lia).
  eexists. split; [reflexivity|]. simpl. split_and!.
  - reflexivity.
  - by rewrite <- app_assoc.
  - unfold getsize. simpl. by rewrite lookup_insert_eq.
Qed.

(** Target 0 over a file of three bytes: the file is emptied, nothing is
    written. *)
Lemma generate_nonpositive_target_witness :
  0 <= 0 /\ denied (World (<["f" := [1; 2; 3]]> ∅) 5 (fun _ => None) 0 []) "f" = None /\
  exists w',
    generate Text.posix 1 "f" 0 (Text.lit "abc") (World (<["f" := [1; 2; 3]]> ∅) 5 (fun _ => None) 0 [])
      = (Ret tt, w') /\
    files w' = <["f" := []]> (<["f" := [1; 2; 3]]> ∅) /\
    log w' = [] ++ [EvOpen "f"; EvClose "f"] /\
    fst (getsize "f" w') = Ret 0.
Proof.
  split; [lia|]. split; [reflexivity|].
  exact (generate_nonpositive_target Text.posix "f" 0 (Text.lit "abc") 0
           (World (<["f" := [1; 2; 3]]> ∅) 5 (fun _ => None) 0 [])
           ltac:(lia) eq_refl).
Defined.

(** A world without files holds nothing at any path. *)
Lemma content_empty_world fr dn hn lg p : content (World ∅ fr dn hn lg) p = [].
Proof. unfold content. simpl. by rewrite lookup_empty. Qed.

(** C10, as the claim has it, fails: with the same target and chunk the
    bytes of the file are not the same in every run.  Text mode writes the
    line separator of the platform, so target 3 and the chunk ["A\n"] leave
    ["A\nA\n"] where the separator is ["\n"] and ["A\r\n"] where it is
    ["\r\n"]; and the device decides whether the run gets through, so
    target 10 and the chunk ["abc"] leave twelve bytes where there is room
    and the five bytes ["abcab"], with an error, where five bytes are free. *)
Lemma generate_output_depends_on_world :
  (exists fuel w1 w2,
     generate Text.posix fuel "f" 3 [65; 10] (World ∅ 100 (fun _ => None) 0 []) = (Ret tt, w1) /\
     generate Text.nt fuel "f" 3 [65; 10] (World ∅ 100 (fun _ => None) 0 []) = (Ret tt, w2) /\
     files w1 !! "f" = Some [65; 10; 65; 10] /\
     files w2 !! "f" = Some [65; 13; 10]) /\
  (exists fuel w1 w2,
     generate Text.posix fuel "f" 10 (Text.lit "abc") (World ∅ 100 (fun _ => None) 0 [])
     = (Ret tt, w1) /\
     generate Text.posix fuel "f" 10 (Text.lit "abc") (World ∅ 5 (fun _ => None) 0 [])
     = (Raise NoSpaceError, w2) /\
     files w1 !! "f" = Some [97; 98; 99; 97; 98; 99; 97; 98; 99; 97; 98; 99] /\
     files w2 !! "f" = Some [97; 98; 99; 97; 98]).
Proof.
  split.
  - destruct (generate_succeeds Text.posix "f" 3 [65; 10] [65; 10] eq_refl
                (World ∅ 100 (fun _ => None) 0 [])) as [w1 Hrun1];
      [reflexivity|reflexivity|rewrite content_empty_world; vm_compute; discriminate|].
    destruct (generate_succeeds Text.nt "f" 3 [65; 10] [65; 13; 10] eq_refl
                (World ∅ 100 (fun _ => None) 0 [])) as [w2 Hrun2];
      [reflexivity|reflexivity|rewrite content_empty_world; vm_compute; discriminate|].
    exists (S (Z.to_nat 3)), w1, w2. split_and!; [exact Hrun1|exact Hrun2| |].
    + apply generate_ret_closed in Hrun1 as (_ & -> & _). by rewrite lookup_insert_eq.
    + apply generate_ret_closed in Hrun2 as (_ & -> & _). by rewrite lookup_insert_eq.
  - assert (Text.encode Text.posix (Text.lit "abc") = Some [97; 98; 99]) as Henc by reflexivity.
    destruct (generate_succeeds Text.posix "f" 10 (Text.lit "abc") [97; 98; 99] Henc
                (World ∅ 100 (fun _ => None) 0 [])) as [w1 Hrun1];
      [reflexivity|reflexivity|rewrite content_empty_world; vm_compute; discriminate|].
    pose proof (generate_ends Text.posix "f" 10 (Text.lit "abc") [97; 98; 99] Henc
                  (World ∅ 5 (fun _ => None) 0 []) eq_refl) as Hend.
    destruct (generate Text.posix (S (Z.to_nat 10)) "f" 10 (Text.lit "abc")
                (World ∅ 5 (fun _ => None) 0 [])) as [[[]|e|] w2] eqn:Hrun2.
    + destruct (generate_ret Text.posix "f" 10 (Text.lit "abc") [97; 98; 99] Henc _ _ _ Hrun2)
        as (n & _ & Hge & _ & Hfit & _).
      rewrite content_empty_world in Hfit. change (len [97; 98; 99]) with 3 in *.
      change (len (@nil Z)) with 0 in Hfit. simpl free in Hfit. lia.
    + destruct (generate_raise Text.posix "f" 10 (Text.lit "abc") [97; 98; 99] Henc
                  (S (Z.to_nat 10)) (World ∅ 5 (fun _ => None) 0 []) e w2 eq_refl Hrun2)
        as (He & k & r & Hfit & Hr & Hrlt & Hfiles & _). subst e.
      rewrite content_empty_world in Hfit, Hr. change (len [97; 98; 99]) with 3 in *.
      change (len (@nil Z)) with 0 in *. simpl free in *.
      assert (k = 1%nat) as -> by lia. assert (r = 2) as -> by lia.
      exists (S (Z.to_nat 10)), w1, w2. split_and!; [exact Hrun1|exact Hrun2| |].
      * apply generate_ret_closed in Hrun1 as (_ & -> & _). by rewrite lookup_insert_eq.
      * rewrite Hfiles. by rewrite lookup_insert_eq.
    + by destruct Hend.
Qed.

(** C10, amended.  On one platform, that is with the line separator fixed,
    and with the path, the target and the chunk fixed, the runs of the block
    that return all leave the same bytes at the path, the same size and the
    same report, whatever the worlds they started in (the old content of
    the file, the other files, the free space) and the fuel they were
    given; so do the returning runs of the whole script, whose values are
    equal.  The bytes are the closed-form content, a function of the
    platform, the target and the chunk, and such runs are there where
    [open] is allowed and the device has room. *)
Theorem generate_deterministic o path T s :
  (forall f1 f2 w v w' v',
     generate o f1 path T s w = (Ret tt, w') ->
     generate o f2 path T s v = (Ret tt, v') ->
     files w' !! path = files v' !! path /\
     fst (getsize path w') = fst (getsize path v') /\
     fst (report_size path w') = fst (report_size path v')) /\
  (forall f1 f2 w v x y w' v',
     script o f1 w = (Ret x, w') ->
     script o f2 v = (Ret y, v') ->
     x = y /\ files w' !! file_path_1mb = files v' !! file_path_1mb) /\
  (forall fuel w w',
     generate o fuel path T s w = (Ret tt, w') ->
     files w' !! path = Some (final_content o T s)) /\
  (forall w bs,
     s <> [] -> Text.encode o s = Some bs ->
     denied w path = None ->
     T + len bs <= free w + len (content w path) ->
     exists fuel w', generate o fuel path T s w = (Ret tt, w')).
Proof.
  assert (forall p T' s' f1 f2 w v w' v',
            generate o f1 p T' s' w = (Ret tt, w') ->
            generate o f2 p T' s' v = (Ret tt, v') ->
            files w' !! p = files v' !! p) as Hsame.
  { intros p T' s' f1 f2 w v w' v' (_ & Hw & _)%generate_ret_closed (_ & Hv & _)%generate_ret_closed.
    by rewrite Hw, Hv, !lookup_insert_eq. }
  split_and!.
  - intros f1 f2 w v w' v' Hw Hv. pose proof (Hsame _ _ _ _ _ _ _ _ _ Hw Hv) as Heq.
    split_and!; [exact Heq| |by apply report_size_fst].
    unfold getsize. rewrite Heq. by destruct (files v' !! path).
  - intros f1 f2 w v x y w' v' (w1 & sx & Hgw & Hrw)%script_ret (v1 & sy & Hgv & Hrv)%script_ret.
    pose proof (Hsame _ _ _ _ _ _ _ _ _ Hgw Hgv) as Heq.
    pose proof (report_size_fst file_path_1mb w1 v1 Heq) as Hrep.
    rewrite Hrw, Hrv in Hrep. simpl in Hrep. injection Hrep as _ ->.
    split; [reflexivity|].
    pose proof (report_size_world file_path_1mb w1) as Hw1. rewrite Hrw in Hw1.
    pose proof (report_size_world file_path_1mb v1) as Hv1. rewrite Hrv in Hv1.
    simpl in Hw1, Hv1. by subst w' v'.
  - intros fuel w w' (_ & Hfiles & _)%generate_ret_closed.
    rewrite Hfiles. apply lookup_insert_eq.
  - intros w bs Hs Henc Hopen Hroom. exists (S (Z.to_nat T)).
    apply (generate_succeeds o path T s bs Henc); [by eapply encode_nonempty|done|done].
Qed.

(** Target 10 and the chunk ["abc"] over a file that holds three other
    bytes: a run returns, and what it leaves is the closed form. *)
Lemma generate_deterministic_witness :
  final_content Text.posix 10 (Text.lit "abc")
  = [97; 98; 99; 97; 98; 99; 97; 98; 99; 97; 98; 99] /\
  exists fuel w',
    generate Text.posix fuel "f" 10 (Text.lit "abc")
      (World (<["f" := [1; 2; 3]]> ∅) 100 (fun _ => None) 0 []) = (Ret tt, w') /\
    files w' !! "f" = Some (final_content Text.posix 10 (Text.lit "abc")).
Proof.
  split; [reflexivity|].
  assert (10 + len [97; 98; 99]
          <= free (World (<["f" := [1; 2; 3]]> ∅) 100 (fun _ => None) 0 [])
             + len (content (World (<["f" := [1; 2; 3]]> ∅) 100 (fun _ => None) 0 []) "f"))
    as Hroom.
  { pose proof (len_nonneg (content (World (<["f" := [1; 2; 3]]> ∅) 100 (fun _ => None) 0 []) "f")).
    change (len [97; 98; 99]) with 3. simpl free. lia. }
  destruct (proj2 (proj2 (proj2 (generate_deterministic Text.posix "f" 10 (Text.lit "abc"))))
              (World (<["f" := [1; 2; 3]]> ∅) 100 (fun _ => None) 0 [])
              [97; 98; 99] ltac:(discriminate) eq_refl eq_refl Hroom) as (fuel & w' & Hrun).
  exists fuel, w'. split; [exact Hrun|].
  exact (proj1 (proj2 (proj2 (generate_deterministic Text.posix "f" 10 (Text.lit "abc"))))
           fuel _ w' Hrun).
Defined.

(** * Further properties of the script *)

(** ** The empty chunk *)

(** Writing the empty text leaves the position where it was. *)
Lemma write_empty o f w :
  exists w', write o f [] w = (Ret f, w').
Proof.
  unfold write. change (Text.encode o []) with (Some (@nil Z)). cbv beta iota zeta.
  change (len (@nil Z)) with 0. rewrite Z.add_0_r.
  destruct (Z.ltb_spec (Z.min 0 (Z.max 0 (len (content (record (EvWrite (f_name f) (f_pos f) 0) w)
                                                   (f_name f))
                                        + free (record (EvWrite (f_name f) (f_pos f) 0) w)
                                        - f_pos f))) 0) as [Hlt|Hge]; [lia|].
  destruct f. by eexists.
Qed.

Lemma write_loop_empty o T fuel : forall f w,
  tell f < T -> fst (write_loop o fuel T [] f w) = Diverge.
Proof.
  induction fuel as [|fuel IH]; intros f w Hlt; [reflexivity|].
  simpl. destruct (Z.ltb_spec (tell f) T); [|lia].
  unfold bind. destruct (write_empty o f w) as [w' ->]. by apply IH.
Qed.

(** X1. With a target above 0 and the empty chunk the loop never ends:
    where [open] is allowed, the block runs out of any fuel given to it;
    it neither returns nor raises. *)
Theorem generate_empty_chunk_diverges o path T w :
  0 < T -> denied w path = None ->
  forall fuel, fst (generate o fuel path T [] w) = Diverge.
Proof.
  intros HT Hopen fuel. rewrite generate_unfold, Hopen.
  pose proof (write_loop_empty o T fuel (File path 0) (opened path w) HT) as H.
  by destruct (write_loop o fuel T [] (File path 0) (opened path w)) as [[f'|e|] w2].
Qed.

(** The script's target with an empty chunk. *)
Lemma generate_empty_chunk_diverges_witness :
  0 < target_size /\
  denied (World ∅ 0 (fun _ => None) 0 []) file_path_1mb = None /\
  forall fuel,
    fst (generate Text.posix fuel file_path_1mb target_size []
           (World ∅ 0 (fun _ => None) 0 [])) = Diverge.
Proof.
  split; [reflexivity|]. split; [reflexivity|].
  exact (generate_empty_chunk_diverges Text.posix file_path_1mb target_size
           (World ∅ 0 (fun _ => None) 0 []) eq_refl eq_refl).
Defined.

(** ** Texts the codec refuses *)

Lemma utf8_encode_cp_surrogate c :
  0xD800 <= c <= 0xDFFF -> Text.utf8_encode_cp c = None.
Proof.
  intros Hc. unfold Text.utf8_encode_cp.
  destruct (Z.ltb_spec c 0x80); [lia|]. destruct (Z.ltb_spec c 0x800); [lia|].
  destruct (Z.leb_spec 0xD800 c); [|lia]. destruct (Z.leb_spec c 0xDFFF); [|lia].
  reflexivity.
Qed.

Lemma utf8_encode_surrogate_in s :
  Exists (fun c => 0xD800 <= c <= 0xDFFF) s -> Text.utf8_encode s = None.
Proof.
  induction 1 as [c s Hc|c s _ IH]; simpl.
  - by rewrite utf8_encode_cp_surrogate.
  - rewrite IH. by destruct (Text.utf8_encode_cp c).
Qed.

Lemma translate_surrogate_in o s :
  Exists (fun c => 0xD800 <= c <= 0xDFFF) s ->
  Exists (fun c => 0xD800 <= c <= 0xDFFF) (Text.translate o s).
Proof.
  unfold Text.translate. induction 1 as [c s Hc|c s _ IH]; simpl; apply Exists_app.
  - left. destruct (Z.eqb_spec c Text.LF) as [->|_]; [unfold Text.LF in Hc; lia|].
    by constructor.
  - by right.
Qed.

Lemma encode_surrogate_in o s :
  Exists (fun c => 0xD800 <= c <= 0xDFFF) s -> Text.encode o s = None.
Proof. intros H. unfold Text.encode. by apply utf8_encode_surrogate_in, translate_surrogate_in. Qed.

(** X2. A chunk that holds a surrogate code point cannot be encoded: with a
    target above 0 the block raises [UnicodeEncodeError] at its first
    write.  By then [open] has emptied the file: what it held is lost, no
    byte is written, and the file is closed. *)
Theorem generate_surrogate_chunk o path T s fuel w :
  0 < T ->
  Exists (fun c => 0xD800 <= c <= 0xDFFF) s ->
  denied w path = None ->
  exists w',
    generate o (S fuel) path T s w = (Raise UnicodeEncodeError, w') /\
    files w' = <[path := []]> (files w) /\
    handles w' = handles w /\
    log w' = log w ++ [EvOpen path; EvClose path].
Proof.
  intros HT Hs%(encode_surrogate_in o) Hopen.
  rewrite generate_unfold, Hopen, write_loop_unencodable by done.
  eexists. split; [reflexivity|]. simpl. split_and!; try reflexivity.
  by rewrite <- app_assoc.
Qed.

(** A lone high surrogate after a letter. *)
Lemma generate_surrogate_chunk_witness :
  0 < 10 /\
  Exists (fun c => 0xD800 <= c <= 0xDFFF) [65; 0xD83D] /\
  denied (World ∅ 100 (fun _ => None) 0 []) "f" = None /\
  exists w',
    generate Text.posix 1 "f" 10 [65; 0xD83D] (World ∅ 100 (fun _ => None) 0 [])
      = (Raise UnicodeEncodeError, w') /\
    files w' = <["f" := []]> ∅ /\
    handles w' = 0%nat /\
    log w' = [] ++ [EvOpen "f"; EvClose "f"].
Proof.
  assert (Exists (fun c => 0xD800 <= c <= 0xDFFF) [65; 0xD83D]) as Hs
    by (right; left; lia).
  split; [lia|]. split; [exact Hs|]. split; [reflexivity|].
  exact (generate_surrogate_chunk Text.posix "f" 10 [65; 0xD83D] 0
           (World ∅ 100 (fun _ => None) 0 []) ltac:(lia) Hs eq_refl).
Defined.

(** ** The writes of a returning run *)

(** X3. A run that returns made exactly [rounds T L] writes, the least
    number of chunks of [L] bytes that reach [T] (none when [T <= 0]): the
    log of the block is the [open], one write of [L] bytes at each offset
    [0], [L], [2 L], ... in turn, and the [close]. *)
Theorem generate_write_count o path T s bs :
  Text.encode o s = Some bs ->
  forall fuel w w',
    generate o fuel path T s w = (Ret tt, w') ->
    log w' = log w ++ EvOpen path
                      :: write_events path 0 (len bs) (Z.to_nat (rounds T (len bs)))
                      ++ [EvClose path] /\
    fst (getsize path w') = Ret (rounds T (len bs) * len bs).
Proof.
  intros Henc fuel w w' Hrun.
  destruct (generate_ret o path T s bs Henc _ _ _ Hrun)
    as (n & Hfiles & Hge & Hbelow & _ & _ & _ & _ & Hlog).
  rewrite (rounds_unique n T (len bs) (len_nonneg bs) Hge Hbelow), Nat2Z.id.
  split; [exact Hlog|].
  rewrite (getsize_lookup path w' (mjoin (replicate n bs)))
    by (rewrite Hfiles; apply lookup_insert_eq).
  by rewrite len_reps.
Qed.

(** Target 10 and the chunk ["abc"]: four writes. *)
Lemma generate_write_count_witness :
  Text.encode Text.posix (Text.lit "abc") = Some [97; 98; 99] /\
  rounds 10 (len [97; 98; 99]) = 4 /\
  forall fuel w w',
    generate Text.posix fuel "f" 10 (Text.lit "abc") w = (Ret tt, w') ->
    log w' = log w ++ EvOpen "f"
                      :: write_events "f" 0 (len [97; 98; 99])
                           (Z.to_nat (rounds 10 (len [97; 98; 99])))
                      ++ [EvClose "f"] /\
    fst (getsize "f" w') = Ret (rounds 10 (len [97; 98; 99]) * len [97; 98; 99]).
Proof.
  split; [reflexivity|]. split; [reflexivity|].
  exact (generate_write_count Text.posix "f" 10 (Text.lit "abc") [97; 98; 99] eq_refl).
Defined.

(** X4. The position that the loop tests is the size of the file: when the
    loop starts with the position at the end of the file and returns, the
    size that the file system reports for the path is [f.tell()]. *)
Theorem write_loop_tell_is_size o T s fuel f w c f' w' :
  files w !! f_name f = Some c -> tell f = len c ->
  write_loop o fuel T s f w = (Ret f', w') ->
  fst (getsize (f_name f) w') = Ret (tell f') /\ f_name f' = f_name f.
Proof.
  intros Hc Hpos Hrun. destruct (Text.encode o s) as [bs|] eqn:Henc.
  - destruct (write_loop_ret o T s bs Henc fuel f w c f' w' Hpos Hc Hrun)
      as (n & -> & Hfiles & _).
    rewrite (getsize_lookup _ _ (c ++ mjoin (replicate n bs)))
      by (rewrite Hfiles; apply lookup_insert_eq).
    unfold tell in *. simpl. rewrite len_app, len_reps, Hpos. done.
  - destruct fuel as [|fuel]; [discriminate|].
    destruct (Z.ltb_spec (tell f) T) as [Hlt|Hge].
    + rewrite write_loop_unencodable in Hrun by assumption. discriminate.
    + rewrite write_loop_done in Hrun by assumption. injection Hrun as <- <-.
      by rewrite (getsize_lookup _ _ c Hc), Hpos.
Qed.

(** The file object that [open] hands to the loop. *)
Lemma write_loop_tell_is_size_witness :
  files (opened "f" (World ∅ 100 (fun _ => None) 0 [])) !! f_name (File "f" 0) = Some [] /\
  tell (File "f" 0) = len (@nil Z) /\
  forall fuel f' w',
    write_loop Text.posix fuel 10 (Text.lit "abc") (File "f" 0)
      (opened "f" (World ∅ 100 (fun _ => None) 0 [])) = (Ret f', w') ->
    fst (getsize "f" w') = Ret (tell f') /\ f_name f' = "f".
Proof.
  split; [apply opened_lookup|]. split; [reflexivity|].
  intros fuel f' w'.
  exact (write_loop_tell_is_size Text.posix 10 (Text.lit "abc") fuel (File "f" 0)
           (opened "f" (World ∅ 100 (fun _ => None) 0 []))
           [] f' w' (opened_lookup "f" _) eq_refl).
Defined.

(** ** The report after the block *)

(** X6. The report composes with the block: after a run that returned, with
    a target above 0 and [T + L <= 2^53], [report_size] on the same path
    returns (the file is there, the division neither fails nor rounds) the
    size [S] of C1 and the float that is exactly [S / 1,048,576]. *)
Theorem report_after_generate o path T s bs :
  0 < T -> Text.encode o s = Some bs -> T + len bs <= 2 ^ 53 ->
  forall fuel w w',
    generate o fuel path T s w = (Ret tt, w') ->
    exists S x,
      fst (report_size path w') = Ret (S, x) /\
      T <= S < T + len bs /\
      float_is x S 1048576.
Proof.
  intros HT Henc Hsmall fuel w w' Hrun.
  destruct (generate_ret_size o path T s bs fuel w w' HT Henc Hrun) as (n & Hc & _ & _ & Hb).
  rewrite report_size_unfold, Hc, len_reps.
  destruct (truediv_mebi_exact (Z.of_nat n * len bs) (record (EvStat path) w'))
    as (x & -> & Hx); [lia|].
  by exists (Z.of_nat n * len bs), x.
Qed.

(** The script's own target and chunk, with ["\n"] as it is. *)
Lemma report_after_generate_witness :
  0 < target_size /\
  Text.encode Text.posix chunk = Some (Text.translate Text.posix chunk) /\
  target_size + len (Text.translate Text.posix chunk) <= 2 ^ 53 /\
  forall fuel w w',
    generate Text.posix fuel file_path_1mb target_size chunk w = (Ret tt, w') ->
    exists S x,
      fst (report_size file_path_1mb w') = Ret (S, x) /\
      target_size <= S < target_size + len (Text.translate Text.posix chunk) /\
      float_is x S 1048576.
Proof.
  assert (Text.encode Text.posix chunk = Some (Text.translate Text.posix chunk)) as Henc
    by (vm_compute; reflexivity).
  assert (target_size + len (Text.translate Text.posix chunk) <= 2 ^ 53) as Hsmall
    by (vm_compute; discriminate).
  split; [reflexivity|]. split; [exact Henc|]. split; [exact Hsmall|].
  exact (report_after_generate Text.posix file_path_1mb target_size chunk
           (Text.translate Text.posix chunk) eq_refl Henc Hsmall).
Defined.

(** ** Plain ASCII text *)

Lemma utf8_encode_ascii s :
  Forall (fun c => 0 <= c < 128) s -> Text.utf8_encode s = Some s.
Proof.
  induction 1 as [|c s Hc _ IH]; [reflexivity|]. simpl. rewrite IH.
  unfold Text.utf8_encode_cp. by destruct (Z.ltb_spec c 0x80); [|lia].
Qed.

Lemma translate_ascii o s :
  Forall (fun c => 0 <= c < 128) s -> Forall (fun c => 0 <= c < 128) (Text.translate o s).
Proof.
  unfold Text.translate. induction 1 as [|c s Hc _ IH]; [constructor|].
  simpl. apply Forall_app. split; [|exact IH].
  destruct (c =? Text.LF); [destruct o; simpl|];
    repeat (constructor; [unfold Text.CR, Text.LF; lia|]); constructor.
Qed.

Lemma translate_posix s : Text.translate Text.posix s = s.
Proof.
  unfold Text.translate. induction s as [|c s IH]; [reflexivity|].
  simpl in *. rewrite IH. by destruct (Z.eqb_spec c Text.LF) as [->|].
Qed.

Lemma translate_nt_len s :
  len (Text.translate Text.nt s) = len s + len (filter (fun c => c = Text.LF) s).
Proof.
  unfold Text.translate. induction s as [|c s IH]; [reflexivity|].
  simpl in *. rewrite len_app, IH, filter_cons.
  destruct (Z.eqb_spec c Text.LF) as [->|Hne]; destruct (decide _) as [Heq|Hneq];
    try done; unfold len; simpl; lia.
Qed.

(** X7. One [f.write] of plain ASCII text that goes through moves
    [f.tell()] on by the number of characters where the line separator is
    ["\n"], and by the number of characters plus one for every ["\n"] in
    the text where it is ["\r\n"]. *)
Theorem write_ascii_advance o f s w f' w' :
  Forall (fun c => 0 <= c < 128) s ->
  write o f s w = (Ret f', w') ->
  tell f' = tell f + len s +
            match o with
            | Text.posix => 0
            | Text.nt => len (filter (fun c => c = Text.LF) s)
            end.
Proof.
  intros Hascii Hrun.
  assert (Text.encode o s = Some (Text.translate o s)) as Henc
    by (unfold Text.encode; by apply utf8_encode_ascii, translate_ascii).
  destruct (write_cases o s _ Henc f w) as [[w1 Hw]|[w1 Hw]]; rewrite Hw in Hrun;
    [discriminate|].
  injection Hrun as <- <-. unfold tell. simpl.
  destruct o; [rewrite translate_posix|rewrite translate_nt_len]; lia.
Qed.

(** Two lines, each ended by ["\n"], on both platforms. *)
Lemma write_ascii_advance_witness :
  Forall (fun c => 0 <= c < 128) [65; 10; 66; 10] /\
  forall o f w f' w',
    write o f [65; 10; 66; 10] w = (Ret f', w') ->
    tell f' = tell f + len [65; 10; 66; 10] +
              match o with
              | Text.posix => 0
              | Text.nt => len (filter (fun c => c = Text.LF) [65; 10; 66; 10])
              end.
Proof.
  assert (Forall (fun c => 0 <= c < 128) [65; 10; 66; 10]) as H
    by (repeat (constructor; [lia|]); constructor).
  split; [exact H|]. intros o f w f' w'.
  exact (write_ascii_advance o f [65; 10; 66; 10] w f' w' H).
Defined.

(** ** When the file has the target size exactly *)

(** X8. The overshoot is zero exactly when the chunk length divides the
    target: after a run that returned, with a target above 0, the size of
    the file is [T] if and only if [L] divides [T]. *)
Theorem generate_exact_size o path T s bs :
  0 < T -> Text.encode o s = Some bs ->
  forall fuel w w',
    generate o fuel path T s w = (Ret tt, w') ->
    (fst (getsize path w') = Ret T <-> Z.divide (len bs) T).
Proof.
  intros HT Henc fuel w w' Hrun.
  destruct (generate_ret_size o path T s bs fuel w w' HT Henc Hrun) as (n & Hc & HL & Hn & Hb).
  rewrite (getsize_lookup _ _ _ Hc), len_reps. simpl fst. split.
  - intros Heq. injection Heq as Heq. exists (Z.of_nat n). lia.
  - intros [k Hk]. f_equal. subst T.
    assert (k <= Z.of_nat n) by (apply (Z.mul_le_mono_pos_r _ _ (len bs)); lia).
    assert (Z.of_nat n < k + 1) by (apply (Z.mul_lt_mono_pos_r (len bs)); lia).
    f_equal. lia.
Qed.

(** Target 9 and target 10 with a chunk of three bytes. *)
Lemma generate_exact_size_witness :
  0 < 9 /\ Text.encode Text.posix (Text.lit "abc") = Some [97; 98; 99] /\
  Z.divide (len [97; 98; 99]) 9 /\
  forall fuel w w',
    generate Text.posix fuel "f" 9 (Text.lit "abc") w = (Ret tt, w') ->
    (fst (getsize "f" w') = Ret 9 <-> Z.divide (len [97; 98; 99]) 9).
Proof.
  split; [lia|]. split; [reflexivity|]. split; [by exists 3|].
  exact (generate_exact_size Text.posix "f" 9 (Text.lit "abc") [97; 98; 99] ltac:(lia) eq_refl).
Defined.
